(** * Cannon Hill shipping bridge: a shallow embedding of [src/index.js]

    [src/index.js] holds three revisions of the same program, one after
    the other:
      - lines   1-260  (module [RevA]): route [POST /], input guard, retry
        loop, per-item error handling, order number = first all-digit token;
      - lines 261-469  (module [RevB]): route [POST /], retry loop, order
        number = digits of the first [/]-segment;
      - lines 470-650  (module [RevC]): route [POST /cannon-hill], a single
        POST, otherwise as [RevB].
    What the revisions share textually is defined once, before the modules.

    Modelling conventions.
      - A JavaScript string is the list of its UTF-16 code units ([list N]);
        [js "..."] writes a literal.
      - [undefined] is [None]; a row produced by the CSV parser is an object
        whose properties are strings, kept as an association list in
        insertion order (the order only decides which of two writes under
        the same name comes last; rows are read by name).
      - The two lookup tables are finite maps holding the own properties of
        the object literals; they are read with [tableGet], which falls back
        on the members a plain object inherits from [Object.prototype].
      - Console output ([log]) is not part of the model; network requests
        and timer waits are recorded in an event trace. *)

From Stdlib Require Import NArith ZArith List Ascii String Bool Lia.
From stdpp Require Import base option list countable gmap sets strings.

Set Warnings "-register-all".

(** ** JavaScript strings *)

Abbreviation jsstring := (list N) (only parsing).

Definition js (s : string) : jsstring :=
  List.map N_of_ascii (list_ascii_of_string s).

(** [\d]: the ASCII digits. *)
Definition is_digit (c : N) : bool := ((48 <=? c) && (c <=? 57))%N.

(** [\s], and what [String.prototype.trim] removes: ECMAScript WhiteSpace
    and LineTerminator code points. *)
Definition is_whitespace (c : N) : bool :=
  existsb (N.eqb c)
    [9; 10; 11; 12; 13; 32; 160; 5760; 8232; 8233; 8239; 8287; 12288; 65279]%N
  || ((8192 <=? c) && (c <=? 8202))%N.

Fixpoint trimStart (s : jsstring) : jsstring :=
  match s with
  | [] => []
  | c :: s' => if is_whitespace c then trimStart s' else s
  end.

Definition trimEnd (s : jsstring) : jsstring := rev (trimStart (rev s)).

(** [s.trim()] *)
Definition trim (s : jsstring) : jsstring := trimEnd (trimStart s).

(** [s.split(sep)] for a one-character separator string: the pieces between
    the occurrences of [sep]; never the empty array. *)
Fixpoint split (sep : N) (s : jsstring) : list jsstring :=
  match s with
  | [] => [[]]
  | c :: s' =>
      if (c =? sep)%N then [] :: split sep s'
      else match split sep s' with
           | p :: ps => (c :: p) :: ps
           | [] => [[c]]
           end
  end.

(** The character class [[\/\s-]]. *)
Definition is_separator (c : N) : bool :=
  (c =? 47)%N || is_whitespace c || (c =? 45)%N.

(** [s.split(/[\/\s-]+/)]: the pieces between the maximal runs of separator
    characters. [in_run] tells that the previous character was a separator,
    so the current one continues the same match. *)
Fixpoint split_runs (in_run : bool) (s : jsstring) : list jsstring :=
  match s with
  | [] => [[]]
  | c :: s' =>
      if is_separator c then
        if in_run then split_runs true s' else [] :: split_runs true s'
      else match split_runs false s' with
           | p :: ps => (c :: p) :: ps
           | [] => [[c]]
           end
  end.

(** [/^\d+$/.test(part)] *)
Definition all_digits (part : jsstring) : bool :=
  negb (bool_decide (part = [])) && forallb is_digit part.

(** Truthiness of a string value. *)
Definition truthy_str (s : jsstring) : bool := negb (bool_decide (s = [])).

(** [a || d] where [d] is a string. *)
Definition or_default (a : option jsstring) (d : jsstring) : jsstring :=
  match a with
  | Some s => if truthy_str s then s else d
  | None => d
  end.

(** A value interpolated in a template literal. *)
Definition interpolate (v : option jsstring) : jsstring :=
  match v with
  | Some s => s
  | None => js "undefined"
  end.

(** ** Objects with string properties *)

Abbreviation row := (list (jsstring * jsstring)) (only parsing).

(** [o[k]] *)
Fixpoint obj_get (k : jsstring) (o : row) : option jsstring :=
  match o with
  | [] => None
  | (k', v) :: o' => if bool_decide (k' = k) then Some v else obj_get k o'
  end.

(** [o[k] = v]: overwrite in place, or add as the last property. *)
Fixpoint obj_set (k v : jsstring) (o : row) : row :=
  match o with
  | [] => [(k, v)]
  | (k', v') :: o' =>
      if bool_decide (k' = k) then (k', v) :: o' else (k', v') :: obj_set k v o'
  end.

(** ** What a plain object inherits *)

(** The names of the members every plain object inherits from
    [Object.prototype] (Node): functions, and the prototype itself under
    [__proto__]. *)
Definition objectPrototypeNames : list (list N) :=
  [ js "constructor"; js "__defineGetter__"; js "__defineSetter__";
    js "hasOwnProperty"; js "__lookupGetter__"; js "__lookupSetter__";
    js "isPrototypeOf"; js "propertyIsEnumerable"; js "toString";
    js "valueOf"; js "__proto__"; js "toLocaleString" ].

Definition inherited (k : jsstring) : bool :=
  bool_decide (k ∈ objectPrototypeNames).

(** A value read from an object with string properties: a string, or the
    member of [Object.prototype] of the given name. *)
Inductive jsvalue :=
| Str (s : list N)
| Member (name : list N).

(** Functions and objects are truthy. *)
Definition truthy_value (v : jsvalue) : bool :=
  match v with
  | Str s => truthy_str s
  | Member _ => true
  end.

(** [a || b] on such values. *)
Definition or_value (a b : option jsvalue) : option jsvalue :=
  match a with
  | Some v => if truthy_value v then a else b
  | None => b
  end.

(** [a || d] where [d] is defined. *)
Definition or_value_default (a : option jsvalue) (d : jsvalue) : jsvalue :=
  match a with
  | Some v => if truthy_value v then v else d
  | None => d
  end.

(** The text of an inherited member, as Node prints it: the source text of
    a native function ([Object] is the function under [constructor]), and
    ["[object Object]"] for the prototype. *)
Definition memberText (name : jsstring) : jsstring :=
  if bool_decide (name = js "__proto__") then js "[object Object]"
  else js "function "
       ++ (if bool_decide (name = js "constructor") then js "Object" else name)
       ++ js "() { [native code] }".

(** A value interpolated in a template literal. *)
Definition interpolateValue (v : option jsvalue) : jsstring :=
  match v with
  | None => js "undefined"
  | Some (Str s) => s
  | Some (Member name) => memberText name
  end.

(** [table[k]] where [table] holds the own properties of an object literal:
    an own property, else an inherited member, else [undefined]. *)
Definition tableGet (table : gmap (list N) (list N)) (k : jsstring)
  : option jsvalue :=
  match table !! k with
  | Some s => Some (Str s)
  | None => if inherited k then Some (Member k) else None
  end.

(** [o[k]] on a row, for any name: an own property, else an inherited
    member, else [undefined]. ([obj_get] is the own property alone; the
    program reads rows under the names [Object.keys] lists and under
    [Cust_PO_Number], [Shipped_VIA], [Customer_Number] and [Tracking_Number],
    none of which is inherited.) *)
Definition rowRead (k : jsstring) (o : row) : option jsvalue :=
  match obj_get k o with
  | Some v => Some (Str v)
  | None => if inherited k then Some (Member k) else None
  end.

(** [o[k] = v] on a plain object, [v] a string: under [__proto__] the
    inherited setter is called, which ignores a string; any other name
    becomes or stays an own property. *)
Definition obj_assign (k v : jsstring) (o : row) : row :=
  if bool_decide (k = js "__proto__") then o else obj_set k v o.

(** ** Row Transformer *)

Record ShipmentRecord := {
  source_id : jsstring;
  tracking_number : option jsstring;
  carrier_code : jsstring;
  shipment_method : jsvalue
}.

Definition shipmentMethodMap : gmap (list N) (list N) :=
  list_to_map [ (js "G", js "Ground");
                (js "3RD", js "3 Day Select");
                (js "2ND", js "2nd Day Air") ].

Definition storeIdMap : gmap (list N) (list N) :=
  list_to_map [ (js "RTSCS", js "68125");
                (js "RTFMS", js "118741");
                (js "HERO", js "14077") ].

(** [(item.Shipped_VIA || "").split('-').map((part) => part.trim())] *)
Definition shippedViaParts (item : row) : list jsstring :=
  List.map trim (split 45 (or_default (obj_get (js "Shipped_VIA") item) [])).

(** The destructuring [[carrier_code = "", shipment_method = ""]]. *)
Definition destructure2 (parts : list jsstring) : jsstring * jsstring :=
  (default [] (parts !! 0%nat), default [] (parts !! 1%nat)).

(** [shipmentMethodMap[shipment_method] || shipment_method] *)
Definition mapShipmentMethod (shipment_method : jsstring) : jsvalue :=
  or_value_default (tableGet shipmentMethodMap shipment_method) (Str shipment_method).

(** [shipment_method || "Residential"] *)
Definition orResidential (shipment_method : jsvalue) : jsvalue :=
  or_value_default (Some shipment_method) (Str (js "Residential")).

(** [storeIdMap[item.Customer_Number]]; an absent customer number is the
    property name ["undefined"]. *)
Definition lookupStoreId (item : row) : option jsvalue :=
  tableGet storeIdMap (interpolate (obj_get (js "Customer_Number") item)).

(** ** CSV Normalizer *)

(** [key.replace(/[- ]/g, '_')] *)
Definition normalizeKey (key : jsstring) : jsstring :=
  List.map (fun c => if (c =? 45)%N || (c =? 32)%N then 95%N else c) key.

(** Lines 68-75: the ['data'] handler. [Object.keys(data)] lists the property
    names in insertion order; [normalizedData] starts as the plain object
    [{}]. *)
Definition normalizeData (data : row) : row :=
  foldl (fun normalizedData key =>
           match obj_get key data with
           | Some v => obj_assign (normalizeKey key) v normalizedData
           | None => normalizedData
           end)
        [] (List.map fst data).

(** An error as [handleError] reads it. The texts are the engine's; for the
    errors the program builds itself see [describe] below. *)
Record errorObject := {
  error_name : jsstring;
  error_message : jsstring;
  error_stack : jsstring
}.

(** How a promise settles. *)
Inductive promise (A : Type) :=
| Resolves (a : A)
| Rejects (error : errorObject).
Arguments Resolves {A} a.
Arguments Rejects {A} error.

(** Modelled from the spec: the lines of the input, as the [csv-parser]
    package (imported at line 2, not part of [src/]) cuts them; section 4.1
    of the specification speaks of lines without saying more. The buffer is
    taken as already decoded text, cut at line feeds; a final line feed ends
    the last line. *)
Definition lines (buffer : jsstring) : list jsstring :=
  let pieces := split 10 buffer in
  match last pieces with
  | Some [] => removelast pieces
  | _ => pieces
  end.

(** Modelled from the spec: the record [csv-parser] emits for one data line,
    pairing the column names with the comma-separated cells of the line. *)
Definition csvRecord (headers cells : list jsstring) : row :=
  foldl (fun o hc => obj_set hc.1 hc.2 o) [] (zip headers cells).

(** Modelled from the spec: the records [csvParser({ skipLines })] of the
    [csv-parser] package emits for a readable input. Following section 4.1,
    [skipLines] lines are dropped, the next line names the columns and every
    further line gives one record. *)
Definition csvRows (skipLines : nat) (buffer : jsstring) : list row :=
  match drop skipLines (lines buffer) with
  | [] => []
  | header :: data =>
      List.map (fun line => csvRecord (split 44 header) (split 44 line)) data
  end.

Section Parser.

(** Modelled from the spec: the ParseError of section 4.1, the error the
    [csv-parser] stream emits when the input cannot be read as delimited
    text, [None] when it can. Which inputs those are is the package's
    affair. *)
Variable unreadable : list N -> option errorObject.

(** Modelled from the spec: the stream [csvParser({ skipLines })], which
    ends after its records or fails with the ParseError. *)
Definition csvParser (skipLines : nat) (buffer : jsstring) : promise (list row) :=
  match unreadable buffer with
  | Some error => Rejects error
  | None => Resolves (csvRows skipLines buffer)
  end.

(** Lines 59-79 (313-338, 527-547): the promise resolves on ['end'] with the
    rows pushed by the ['data'] handler, in the order the parser emits them,
    and rejects on ['error'] with the parser's error. *)
Definition parseCSVFromBuffer (buffer : jsstring) : promise (list row) :=
  match csvParser 4 buffer with
  | Resolves parsed => Resolves (List.map normalizeData parsed)
  | Rejects error => Rejects error
  end.

End Parser.

(** ** Submission Client *)

(** Values produced by [JSON.parse]. Numbers enter the program only through
    their truthiness, so integers stand for them. An object lists its own
    properties. *)
Inductive json :=
| JNull
| JBool (b : bool)
| JNum (n : Z)
| JStr (s : list N)
| JArr (items : list json)
| JObj (props : list (list N * json)).

Inductive exn :=
| Error (message : list N)                 (* new Error(message) *)
| HttpError (status : N) (response : list N)
    (* new Error(JSON.stringify({ status, response })) *)
| SyntaxError                              (* JSON.parse of malformed text *)
| TypeError          (* property read on null, call of what is no function *)
| Rejected (reason : list N).    (* rejection of fetch() or of a body read *)

Inductive result (A : Type) :=
| Ok (a : A)
| Throw (e : exn).
Arguments Ok {A} a.
Arguments Throw {A} e.

#[export] Instance result_ret : MRet result := fun _ a => Ok a.
#[export] Instance result_bind : MBind result := fun _ _ f m =>
  match m with
  | Ok a => f a
  | Throw e => Throw e
  end.

Fixpoint assoc (k : jsstring) (props : list (list N * json)) : option json :=
  match props with
  | [] => None
  | (k', v) :: props' => if bool_decide (k' = k) then Some v else assoc k props'
  end.

(** [v.k] for the property names the program reads ([status], [message],
    [execution_time], [results], [postResponse], [error]): none of them is
    defined on arrays, strings, numbers or booleans. *)
Definition getProp (v : json) (k : jsstring) : result (option json) :=
  match v with
  | JNull => Throw TypeError
  | JObj props => Ok (assoc k props)
  | _ => Ok None
  end.

Definition truthy (v : json) : bool :=
  match v with
  | JNull => false
  | JBool b => b
  | JNum n => negb (n =? 0)%Z
  | JStr s => truthy_str s
  | JArr _ | JObj _ => true
  end.

(** [a || d] *)
Definition or_json (a : option json) (d : json) : json :=
  match a with
  | Some v => if truthy v then v else d
  | None => d
  end.

(** One simplified per-item outcome, [{ status, message }]. *)
Record Simplified := { item_status : json; item_message : json }.

Record SubmissionResult := {
  status : json;
  message : json;
  execution_time : json;
  results : list Simplified
}.

(** What the outside world answers to one POST. *)
Inductive reply :=
| NoReply (reason : list N)                        (* fetch() rejects *)
| Reply (ok : bool) (code : N) (text : result (list N)).

Inductive event :=
| Fetch (body : list ShipmentRecord)   (* POST of JSON.stringify(body) *)
| Wait (ms : nat).                     (* setTimeout(resolve, ms) *)

Inductive completion :=
| Returns (r : SubmissionResult)
| ReturnsUndefined
| Throws (e : exn).

Definition noValidResponses : Simplified :=
  {| item_status := JStr (js "error");
     item_message := JStr (js "No valid responses received") |}.

Module RevA.

(** Lines 94-97. *)
Definition sanitizedValue (po : jsstring) : option jsstring :=
  trim <$> List.find all_digits (split_runs false po).

(** Lines 100-113: the record pushed for an accepted row. *)
Definition shipmentRecord (item : row) (sanitizedValue : jsstring)
  : ShipmentRecord :=
  let '(carrier_code, shipment_method) := destructure2 (shippedViaParts item) in
  let shipment_method := mapShipmentMethod shipment_method in
  let mappedStoreId := lookupStoreId item in
  {| source_id :=
       interpolateValue
         (or_value mappedStoreId (Str <$> obj_get (js "Customer_Number") item))
         ++ js "-" ++ sanitizedValue;
     tracking_number := obj_get (js "Tracking_Number") item;
     carrier_code := carrier_code;
     shipment_method := orResidential shipment_method |}.

(** Lines 91-118: the callback of [results.reduce], with the closed-over
    set [uniqueOrderIds] threaded as the second component. *)
Definition reducer (acc : list ShipmentRecord * gset (list N)) (item : row)
  : list ShipmentRecord * gset (list N) :=
  let '(formattedData, uniqueOrderIds) := acc in
  match obj_get (js "Cust_PO_Number") item with
  | Some po =>
      if truthy_str po then
        match sanitizedValue po with
        | Some sv =>
            if truthy_str sv && negb (bool_decide (sv ∈ uniqueOrderIds)) then
              (formattedData ++ [shipmentRecord item sv],
               {[ sv ]} ∪ uniqueOrderIds)
            else acc
        | None => acc
        end
      else acc
  | None => acc
  end.

(** Lines 86-119. *)
Definition formatCannonHillData (results : list row) : list ShipmentRecord :=
  (foldl reducer ([], ∅) results).1.


(** Lines 202-220: the callback of [postResponses.map], with the
    destructuring default [postResponse = {}]. *)
Definition simplifyOne (element : json) : result Simplified :=
  postResponse ← getProp element (js "postResponse");
  error ← getProp element (js "error");
  let postResponse := default (JObj []) postResponse in
  let simplified :=
    status ← getProp postResponse (js "status");
    message ← getProp postResponse (js "message");
    Ok {| item_status := or_json status (JStr (js "unknown"));
          item_message := or_json message (JStr (js "No message provided")) |} in
  match error with
  | Some e =>
      if truthy e then Ok {| item_status := JStr (js "error"); item_message := e |}
      else simplified
  | None => simplified
  end.

(** Lines 194-221. *)
Definition simplifyPostResponses (postResponses : json)
  : result (list Simplified) :=
  match postResponses with
  | JArr (element :: elements) => mapM simplifyOne (element :: elements)
  | _ => Ok [noValidResponses]
  end.

(** Lines 166-171: the object returned on success. *)
Definition submissionResult (jsonResponse : json) : result SubmissionResult :=
  status ← getProp jsonResponse (js "status");
  message ← getProp jsonResponse (js "message");
  execution_time ← getProp jsonResponse (js "execution_time");
  results ← getProp jsonResponse (js "results");
  simplified ← simplifyPostResponses (or_json results (JArr []));
  Ok {| status := or_json status (JStr (js "success"));
        message := or_json message (JStr (js "No message provided"));
        execution_time := or_json execution_time (JStr (js "N/A"));
        results := simplified |}.

Section Client.

(** [JSON.parse], with [None] for a [SyntaxError]. *)
Variable JSON_parse : list N -> option json.

(** The reply of the remote endpoint to the [n]-th request. *)
Variable net : nat -> reply.

(** Lines 146-171: the body of the [try] block, given the reply to the
    request it sends. *)
Definition attemptOnce (r : reply) : result SubmissionResult :=
  match r with
  | NoReply reason => Throw (Rejected reason)
  | Reply ok code text =>
      rawResponse ← text;
      if negb ok then Throw (HttpError code rawResponse)
      else
        match JSON_parse rawResponse with
        | None => Throw SyntaxError
        | Some jsonResponse => submissionResult jsonResponse
        end
  end.

(** Lines 143-185: [for (let attempt = 1; attempt <= retries; attempt++)],
    run over the attempt numbers still to come. *)
Fixpoint retryLoop (data : list ShipmentRecord) (retries : nat)
    (attempts : list nat) : list event * completion :=
  match attempts with
  | [] => ([], ReturnsUndefined)
  | attempt :: later =>
      match attemptOnce (net attempt) with
      | Ok r => ([Fetch data], Returns r)
      | Throw e =>
          if (attempt =? retries)%nat then ([Fetch data], Throws e)
          else
            let '(trace, c) := retryLoop data retries later in
            (Fetch data :: Wait (attempt * 1000) :: trace, c)
      end
  end.

(** Lines 130-186. [data] is always an array here, so the guard
    [!Array.isArray(data) || data.length === 0] is the emptiness test. *)
Definition postToSubmitRoute (data : list ShipmentRecord) (retries : nat)
  : list event * completion :=
  match data with
  | [] => ([], Throws (Error (js "No valid data to send to submit route")))
  | _ :: _ => retryLoop data retries (seq 1 retries)
  end.

End Client.

End RevA.

Module RevB.

(** Line 352 (and line 561). *)
Definition sanitizedValue (po : jsstring) : jsstring :=
  trim (List.filter is_digit (default [] (split 47 po !! 0%nat))).

(** Lines 355-365 (and 564-574). *)
Definition shipmentRecord (item : row) (sanitizedValue : jsstring)
  : ShipmentRecord :=
  let '(carrier_code, shipment_method) := destructure2 (shippedViaParts item) in
  let shipment_method := mapShipmentMethod shipment_method in
  let mappedStoreId :=
    or_value (lookupStoreId item) (Str <$> obj_get (js "Customer_Number") item) in
  {| source_id := interpolateValue mappedStoreId ++ js "-" ++ sanitizedValue;
     tracking_number := obj_get (js "Tracking_Number") item;
     carrier_code := carrier_code;
     shipment_method := orResidential shipment_method |}.

(** Lines 350-370 (and 559-579). *)
Definition reducer (acc : list ShipmentRecord * gset (list N)) (item : row)
  : list ShipmentRecord * gset (list N) :=
  let '(formattedData, uniqueOrderIds) := acc in
  match obj_get (js "Cust_PO_Number") item with
  | Some po =>
      if truthy_str po then
        let sv := sanitizedValue po in
        if truthy_str sv && negb (bool_decide (sv ∈ uniqueOrderIds)) then
          (formattedData ++ [shipmentRecord item sv],
           {[ sv ]} ∪ uniqueOrderIds)
        else acc
      else acc
  | None => acc
  end.

(** Lines 345-371 (and 554-580). *)
Definition formatCannonHillData (results : list row) : list ShipmentRecord :=
  (foldl reducer ([], ∅) results).1.


(** Lines 427-430 (and 621-624): the callback of [postResponses.map]. *)
Definition simplifyOne (element : json) : result Simplified :=
  postResponse ← getProp element (js "postResponse");
  let postResponse := default (JObj []) postResponse in
  status ← getProp postResponse (js "status");
  message ← getProp postResponse (js "message");
  Ok {| item_status := or_json status (JStr (js "unknown"));
        item_message := or_json message (JStr (js "No message provided")) |}.

(** Lines 426-430 (and 620-624). Only an array has a [map] method. *)
Definition simplifyPostResponses (postResponses : json)
  : result (list Simplified) :=
  match postResponses with
  | JArr elements => mapM simplifyOne elements
  | _ => Throw TypeError
  end.

(** Lines 401-406 (and 607-612). *)
Definition submissionResult (jsonResponse : json) : result SubmissionResult :=
  status ← getProp jsonResponse (js "status");
  message ← getProp jsonResponse (js "message");
  execution_time ← getProp jsonResponse (js "execution_time");
  results ← getProp jsonResponse (js "results");
  simplified ← simplifyPostResponses (or_json results (JArr []));
  Ok {| status := or_json status (JStr (js "success"));
        message := or_json message (JStr (js "No message provided"));
        execution_time := or_json execution_time (JStr (js "N/A"));
        results := simplified |}.

Section Client.

Variable JSON_parse : list N -> option json.
Variable net : nat -> reply.

(** Lines 387-406 (and 593-612): [response.json()] reads the body and
    parses it. *)
Definition attemptOnce (r : reply) : result SubmissionResult :=
  match r with
  | NoReply reason => Throw (Rejected reason)
  | Reply ok code text =>
      if negb ok then
        errorText ← text;
        Throw (HttpError code errorText)
      else
        body ← text;
        match JSON_parse body with
        | None => Throw SyntaxError
        | Some jsonResponse => submissionResult jsonResponse
        end
  end.

(** Lines 385-418. *)
Fixpoint retryLoop (data : list ShipmentRecord) (retries : nat)
    (attempts : list nat) : list event * completion :=
  match attempts with
  | [] => ([], ReturnsUndefined)
  | attempt :: later =>
      match attemptOnce (net attempt) with
      | Ok r => ([Fetch data], Returns r)
      | Throw e =>
          if (attempt =? retries)%nat then ([Fetch data], Throws e)
          else
            let '(trace, c) := retryLoop data retries later in
            (Fetch data :: Wait (attempt * 1000) :: trace, c)
      end
  end.

(** Lines 381-419: no test of [data] precedes the loop. *)
Definition postToSubmitRoute (data : list ShipmentRecord) (retries : nat)
  : list event * completion :=
  retryLoop data retries (seq 1 retries).

End Client.

End RevB.

(** [RevC] repeats the transformer (lines 554-580) and the response
    simplification (lines 607-624) of [RevB] word for word; its client sends
    one request. *)
Module RevC.

Definition sanitizedValue := RevB.sanitizedValue.
Definition shipmentRecord := RevB.shipmentRecord.
Definition reducer := RevB.reducer.
Definition formatCannonHillData := RevB.formatCannonHillData.
Definition simplifyPostResponses := RevB.simplifyPostResponses.
Definition submissionResult := RevB.submissionResult.

Section Client.

Variable JSON_parse : list N -> option json.
Variable net : nat -> reply.

(** Lines 589-613. *)
Definition postToSubmitRoute (data : list ShipmentRecord)
  : list event * completion :=
  match RevB.attemptOnce JSON_parse (net 1%nat) with
  | Ok r => ([Fetch data], Returns r)
  | Throw e => ([Fetch data], Throws e)
  end.

End Client.

End RevC.

(** ** Order numbers and first occurrences *)

(** The order number a row yields in [RevA]: the conditions of lines 92-99
    that precede the membership test. *)
Definition orderNumberA (item : row) : option jsstring :=
  match obj_get (js "Cust_PO_Number") item with
  | Some po =>
      if truthy_str po then
        match RevA.sanitizedValue po with
        | Some sv => if truthy_str sv then Some sv else None
        | None => None
        end
      else None
  | None => None
  end.

(** The same for [RevB] and [RevC] (lines 351-354, 560-563). *)
Definition orderNumberB (item : row) : option jsstring :=
  match obj_get (js "Cust_PO_Number") item with
  | Some po =>
      if truthy_str po then
        let sv := RevB.sanitizedValue po in
        if truthy_str sv then Some sv else None
      else None
  | None => None
  end.

Fixpoint takeWhile (p : N -> bool) (s : jsstring) : jsstring :=
  match s with
  | [] => []
  | c :: s' => if p c then c :: takeWhile p s' else []
  end.

(** What follows the last ['-'] of a string (the whole string when it has
    none). *)
Definition afterLastHyphen (s : jsstring) : jsstring :=
  rev (takeWhile (fun c => negb (c =? 45)%N) (rev s)).

(** The rows that yield an order number which no earlier row yields, each
    with that number, in input order. [earlier] holds the rows already
    passed. *)
Fixpoint firstOccurrences (orderNumber : row -> option jsstring)
    (earlier rows : list row) : list (row * jsstring) :=
  match rows with
  | [] => []
  | item :: rest =>
      match orderNumber item with
      | Some n =>
          if bool_decide (Some n ∈ orderNumber <$> earlier)
          then firstOccurrences orderNumber (earlier ++ [item]) rest
          else (item, n) :: firstOccurrences orderNumber (earlier ++ [item]) rest
      | None => firstOccurrences orderNumber (earlier ++ [item]) rest
      end
  end.

(** The order number as the specification words it: the digits of what
    precedes the first ['/']. *)
Definition slashDigits (po : jsstring) : jsstring :=
  List.filter is_digit (takeWhile (fun c => negb (c =? 47)%N) po).

(** The shipment method as the specification words it. *)
Definition methodName (code : jsstring) : jsstring :=
  if bool_decide (code = js "G") then js "Ground"
  else if bool_decide (code = js "3RD") then js "3 Day Select"
  else if bool_decide (code = js "2ND") then js "2nd Day Air"
  else if bool_decide (code = []) then js "Residential"
  else code.

(** The store id as the specification words it. *)
Definition storeIdOf (customer : jsstring) : jsstring :=
  if bool_decide (customer = js "RTSCS") then js "68125"
  else if bool_decide (customer = js "RTFMS") then js "118741"
  else if bool_decide (customer = js "HERO") then js "14077"
  else customer.

(** The [i]-th trimmed ['-']-segment of [Shipped_VIA], the empty string when
    the field or the segment is absent. *)
Definition viaSegment (i : nat) (item : row) : jsstring :=
  let via := match obj_get (js "Shipped_VIA") item with
             | Some s => s
             | None => []
             end in
  match split 45 via !! i with
  | Some part => trim part
  | None => []
  end.

(** ** Sample data and traces *)

Definition sampleRow : row :=
  [ (js "Cust_PO_Number", js "12345/1"); (js "Shipped_VIA", js "UPS - G");
    (js "Customer_Number", js "RTSCS"); (js "Tracking_Number", js "1Z999") ].

Definition sampleRecord : ShipmentRecord :=
  {| source_id := js "68125-12345"; tracking_number := Some (js "1Z999");
     carrier_code := js "UPS"; shipment_method := Str (js "Ground") |}.

(** A row whose method code and customer number name a member of
    [Object.prototype]. *)
Definition constructorRow : row :=
  [ (js "Cust_PO_Number", js "7"); (js "Shipped_VIA", js "UPS - constructor");
    (js "Customer_Number", js "constructor") ].

(** A row on which the two ways of reading the order number differ. *)
Definition mixedRow : row :=
  [ (js "Cust_PO_Number", js "AB12/34"); (js "Customer_Number", js "HERO") ].

(** [attempts] requests, the first with attempt number [first], each but the
    last followed by a wait of attempt number x 1000 ms. *)
Fixpoint retryTrace (data : list ShipmentRecord) (first attempts : nat)
  : list event :=
  match attempts with
  | 0%nat => []
  | 1%nat => [Fetch data]
  | S (S _ as rest) => Fetch data :: Wait (first * 1000) :: retryTrace data (S first) rest
  end.

Definition isFetch (e : event) : bool :=
  match e with
  | Fetch _ => true
  | Wait _ => false
  end.

(** A remote endpoint that answers every request with HTTP 500. *)
Definition alwaysDown : nat -> reply :=
  fun _ => Reply false 500 (Ok (js "down")).

Definition erroredItem : json := JObj [ (js "error", JStr (js "boom")) ].

(** A reply on which the submission succeeds although the response has no
    [results]. *)
Definition bareSuccess : nat -> reply := fun _ => Reply true 200 (Ok (js "{}")).
Definition parseEmptyObject : list N -> option json := fun _ => Some (JObj []).

(** The upload of section 8 of the specification: four banner lines, the
    header and one record. *)
Definition sampleUpload : jsstring :=
  js "Cannon Hill" ++ [10%N] ++ js "Shipping report" ++ [10%N]
  ++ js "Printed 01/02" ++ [10%N] ++ [10%N]
  ++ js "Cust PO-Number,Shipped VIA,Customer Number,Tracking Number" ++ [10%N]
  ++ js "7890/2,UPS - 3RD,RTFMS,1Z999" ++ [10%N].

(** ** Error responses and the route handler *)

(** The value sent as [error.response] in the error envelope. *)
Inductive payload :=
| PValue (v : json)                (* a value got by parsing the message *)
| PText (s : jsstring)             (* the message, or the stack *)
| PErrorObject (e : errorObject).  (* the error itself *)

Inductive httpBody :=
| NoFileAttached                          (* { message: "No file attached." } *)
| Submitted (r : option SubmissionResult) (* the value of postToSubmitRoute *)
| Failed (code : nat) (response : payload).
    (* { message: "An error occurred while processing the request",
         error: { status: code, response } } *)

Record httpResponse := { http_status : nat; http_body : httpBody }.

Section Endpoint.

(** [JSON.parse], with [None] for a [SyntaxError]. *)
Variable JSON_parse : list N -> option json.

(** The reply of the remote endpoint to the [n]-th request. *)
Variable net : nat -> reply.

(** The name, message and stack of a thrown error. *)
Variable describe : exn -> errorObject.

(** The error of the CSV parser on an input it cannot read. *)
Variable unreadable : list N -> option errorObject.

(** Lines 33-50 (292-309, 501-518). [error.message || error] is the message
    when it is non-empty and the error otherwise, which [JSON.parse] reads
    through its [toString], the name alone for an empty message. A string
    has neither [response] nor [stack]; neither has an error a [response]. *)
Definition handleError (error : errorObject) (statusCode : nat)
  : result httpResponse :=
  let text := if truthy_str (error_message error) then error_message error
              else error_name error in
  match JSON_parse text with
  | Some parsedError =>
      response ← getProp parsedError (js "response");
      stack ← getProp parsedError (js "stack");
      Ok {| http_status := statusCode;
            http_body :=
              Failed statusCode (PValue (or_json response (or_json stack parsedError))) |}
  | None =>
      Ok {| http_status := statusCode;
            http_body :=
              Failed statusCode
                (if truthy_str (error_message error) then PText (error_message error)
                 else if truthy_str (error_stack error) then PText (error_stack error)
                 else PErrorObject error) |}
  end.

(** Lines 245-254 (454-463, 639-644): what the handler answers once
    [postToSubmitRoute] has completed. *)
Definition respond (outcome : list event * completion)
  : list event * result httpResponse :=
  match outcome with
  | (trace, Returns r) =>
      (trace, Ok {| http_status := 200; http_body := Submitted (Some r) |})
  | (trace, ReturnsUndefined) =>
      (trace, Ok {| http_status := 200; http_body := Submitted None |})
  | (trace, Throws e) => (trace, handleError (describe e) 500)
  end.

(** Lines 226-255: the handler of [POST /]; [file] is [req.file.buffer],
    [None] when no file is attached. [postToSubmitRoute] is called without
    [retries], which is then 3. Whatever is thrown or rejected on the way
    goes to [handleError]. *)
Definition routeA (file : option jsstring) : list event * result httpResponse :=
  match file with
  | None => ([], Ok {| http_status := 400; http_body := NoFileAttached |})
  | Some buffer =>
      match parseCSVFromBuffer unreadable buffer with
      | Rejects error => ([], handleError error 500)
      | Resolves results =>
          let formattedData := RevA.formatCannonHillData results in
          respond (RevA.postToSubmitRoute JSON_parse net formattedData 3)
      end
  end.

(** Lines 435-464. *)
Definition routeB (file : option jsstring) : list event * result httpResponse :=
  match file with
  | None => ([], Ok {| http_status := 400; http_body := NoFileAttached |})
  | Some buffer =>
      match parseCSVFromBuffer unreadable buffer with
      | Rejects error => ([], handleError error 500)
      | Resolves results =>
          let formattedData := RevB.formatCannonHillData results in
          respond (RevB.postToSubmitRoute JSON_parse net formattedData 3)
      end
  end.

(** Lines 631-645: the handler of [POST /cannon-hill]. *)
Definition routeC (file : option jsstring) : list event * result httpResponse :=
  match file with
  | None => ([], Ok {| http_status := 400; http_body := NoFileAttached |})
  | Some buffer =>
      match parseCSVFromBuffer unreadable buffer with
      | Rejects error => ([], handleError error 500)
      | Resolves results =>
          let formattedData := RevC.formatCannonHillData results in
          respond (RevC.postToSubmitRoute JSON_parse net formattedData)
      end
  end.

End Endpoint.

(** ** Measures and shapes used in the statements *)

Definition waitOf (e : event) : nat :=
  match e with
  | Wait ms => ms
  | Fetch _ => 0%nat
  end.

(** The time spent waiting, in ms. *)
Definition totalWait (trace : list event) : nat := sum_list (waitOf <$> trace).

(** The number of requests sent. *)
Definition requests (trace : list event) : nat :=
  length (List.filter isFetch trace).

(** What precedes the first ['/'] is a non-empty string of digits. *)
Definition digitsFirst (po : jsstring) : bool :=
  all_digits (takeWhile (fun c => negb (c =? 47)%N) po).

(** The value of the last property of [data] whose rewritten name is [k]. *)
Definition lastWritten (k : jsstring) (data : row) : option jsstring :=
  snd <$> last (List.filter (fun kv => bool_decide (normalizeKey kv.1 = k)) data).

(** The own property read under [k] from the rewritten row: nothing is ever
    stored under [__proto__]. *)
Definition lastWrittenOwn (k : jsstring) (data : row) : option jsstring :=
  if bool_decide (k = js "__proto__") then None else lastWritten k data.

(** The shipment method for a raw code: the inherited member when the code
    names one, the method of the specification otherwise. *)
Definition methodValue (code : jsstring) : jsvalue :=
  if inherited code then Member code else Str (methodName code).

(** The store id for a customer number: the text of the inherited member
    when the number names one, the store id of the specification
    otherwise. *)
Definition storeText (customer : jsstring) : jsstring :=
  if inherited customer then memberText customer else storeIdOf customer.

(** The record built from a row and its order number. *)
Definition recordOf (item : row) (n : jsstring) : ShipmentRecord :=
  {| source_id :=
       storeText (interpolate (obj_get (js "Customer_Number") item))
         ++ js "-" ++ n;
     tracking_number := obj_get (js "Tracking_Number") item;
     carrier_code := viaSegment 0 item;
     shipment_method := methodValue (viaSegment 1 item) |}.

Definition truthy_opt (v : option json) : bool :=
  match v with
  | Some x => truthy x
  | None => false
  end.

(** A parsed row with a column whose rewritten name is [__proto__]. *)
Definition protoRow : row :=
  [ (js "--proto--", js "x"); (js "Cust PO-Number", js "7/1") ].

(** An upload that the parser of the specification reads as [protoRow]. *)
Definition protoUpload : jsstring :=
  [10%N] ++ [10%N] ++ [10%N] ++ [10%N]
  ++ js "--proto--,Cust PO-Number" ++ [10%N] ++ js "x,7/1" ++ [10%N].

(** The row the parser reads from [sampleUpload]. *)
Definition sampleParsedRow : row :=
  [ (js "Cust PO-Number", js "7890/2"); (js "Shipped VIA", js "UPS - 3RD");
    (js "Customer Number", js "RTFMS"); (js "Tracking Number", js "1Z999") ].

(** A row in which two column names are rewritten to the same name. *)
Definition collidingRow : row :=
  [ (js "Cust PO-Number", js "1/1"); (js "Cust-PO Number", js "2/1") ].

(** A sample of error texts, for the examples: an error built by the
    program carries its message, any other the message ["failed"]. *)
Definition plainDescribe (e : exn) : errorObject :=
  match e with
  | Error m =>
      {| error_name := js "Error"; error_message := m;
         error_stack := js "Error: " ++ m |}
  | _ =>
      {| error_name := js "Error"; error_message := js "failed";
         error_stack := js "Error: failed" |}
  end.

(** ** Lemmas on strings *)

Lemma digit_not_whitespace c : is_digit c = true -> is_whitespace c = false.
Proof.
  unfold is_digit, is_whitespace. rewrite andb_true_iff, !N.leb_le.
  intros [H1 H2]. simpl.
  repeat (rewrite orb_false_iff). rewrite andb_false_iff.
  repeat split; try (apply N.eqb_neq; lia).
  left. apply N.leb_gt. lia.
Qed.

Lemma digit_not_hyphen c : is_digit c = true -> negb (c =? 45)%N = true.
Proof.
  unfold is_digit. rewrite andb_true_iff, !N.leb_le, negb_true_iff.
  intros [H1 H2]. apply N.eqb_neq. lia.
Qed.

Lemma forallb_rev (p : N -> bool) s : forallb p (rev s) = forallb p s.
Proof.
  induction s as [|c s IH]; simpl; [done|].
  rewrite forallb_app, IH. simpl. rewrite andb_true_r. apply andb_comm.
Qed.

Lemma trimStart_digits s : forallb is_digit s = true -> trimStart s = s.
Proof.
  destruct s as [|c s]; simpl; [done|].
  rewrite andb_true_iff. intros [Hc _].
  by rewrite (digit_not_whitespace _ Hc).
Qed.

Lemma trim_digits s : forallb is_digit s = true -> trim s = s.
Proof.
  intros H. unfold trim, trimEnd. rewrite (trimStart_digits _ H).
  rewrite trimStart_digits by (by rewrite forallb_rev).
  apply rev_involutive.
Qed.

Lemma forallb_filter_digit s : forallb is_digit (List.filter is_digit s) = true.
Proof.
  induction s as [|c s IH]; simpl; [done|].
  destruct (is_digit c) eqn:E; simpl; [by rewrite E|done].
Qed.

Lemma takeWhile_app p (s t : list N) c :
  forallb p s = true -> p c = false -> takeWhile p (s ++ c :: t) = s.
Proof.
  intros Hs Hc. induction s as [|d s IH]; simpl in *.
  - by rewrite Hc.
  - apply andb_true_iff in Hs as [-> Hs]. by rewrite IH.
Qed.

Lemma afterLastHyphen_app store n :
  forallb is_digit n = true -> afterLastHyphen (store ++ js "-" ++ n) = n.
Proof.
  intros Hn. unfold afterLastHyphen.
  change (js "-") with [45%N]. simpl.
  rewrite rev_app_distr. simpl. rewrite <- app_assoc. simpl.
  rewrite takeWhile_app; [apply rev_involutive| |done].
  rewrite forallb_rev. clear -Hn.
  induction n as [|c n IH]; simpl in *; [done|].
  apply andb_true_iff in Hn as [Hc Hn].
  by rewrite (digit_not_hyphen _ Hc), IH.
Qed.

Lemma split_head sep s :
  split sep s !! 0%nat = Some (takeWhile (fun c => negb (c =? sep)%N) s).
Proof.
  induction s as [|c s IH]; simpl; [done|].
  destruct (c =? sep)%N; simpl; [done|].
  destruct (split sep s) as [|p ps]; simpl in *; [done|].
  by injection IH as ->.
Qed.

Lemma sanitizedValueB_slashDigits po : RevB.sanitizedValue po = slashDigits po.
Proof.
  unfold RevB.sanitizedValue, slashDigits. rewrite split_head. simpl.
  apply trim_digits, forallb_filter_digit.
Qed.

Lemma all_digits_spec s :
  all_digits s = true <-> s <> [] /\ forallb is_digit s = true.
Proof.
  unfold all_digits. rewrite andb_true_iff, negb_true_iff, bool_decide_eq_false.
  done.
Qed.

Lemma sanitizedValueA_find po :
  RevA.sanitizedValue po = List.find all_digits (split_runs false po).
Proof.
  unfold RevA.sanitizedValue.
  destruct (List.find all_digits (split_runs false po)) as [part|] eqn:E;
    simpl; [|done].
  apply find_some in E as [_ E]. apply all_digits_spec in E as [_ E].
  by rewrite trim_digits.
Qed.

Lemma orderNumberA_digits item n :
  orderNumberA item = Some n -> all_digits n = true.
Proof.
  unfold orderNumberA. destruct (obj_get _ item) as [po|]; [|done].
  destruct (truthy_str po); [|done].
  rewrite sanitizedValueA_find.
  destruct (List.find _ _) as [sv|] eqn:E; [|done].
  destruct (truthy_str sv); [|done].
  intros [= <-]. by apply find_some in E as [_ E].
Qed.

Lemma orderNumberB_digits item n :
  orderNumberB item = Some n -> all_digits n = true.
Proof.
  unfold orderNumberB. destruct (obj_get _ item) as [po|]; [|done].
  destruct (truthy_str po); [|done]. simpl.
  destruct (truthy_str _) eqn:E; [|done].
  intros [= <-]. apply all_digits_spec. split.
  - unfold truthy_str in E. by apply negb_true_iff, bool_decide_eq_false in E.
  - rewrite sanitizedValueB_slashDigits. apply forallb_filter_digit.
Qed.

(** ** The reduction, for any way of reading the order number *)

Section Reduction.

Variable orderNumber : row -> option jsstring.
Variable mk : row -> jsstring -> ShipmentRecord.
Variable reducer :
  list ShipmentRecord * gset (list N) -> row -> list ShipmentRecord * gset (list N).

Hypothesis reducer_eq : forall formattedData (uniqueOrderIds : gset (list N)) item,
  reducer (formattedData, uniqueOrderIds) item =
    match orderNumber item with
    | Some n =>
        if bool_decide (n ∈ uniqueOrderIds) then (formattedData, uniqueOrderIds)
        else (formattedData ++ [mk item n], {[ n ]} ∪ uniqueOrderIds)
    | None => (formattedData, uniqueOrderIds)
    end.

Lemma foldl_reducer rows : forall formattedData (seen : gset (list N)) earlier,
  (forall n, n ∈ seen <-> Some n ∈ orderNumber <$> earlier) ->
  (foldl reducer (formattedData, seen) rows).1 =
    formattedData ++ (uncurry mk <$> firstOccurrences orderNumber earlier rows).
Proof.
  induction rows as [|item rest IH]; intros acc seen earlier Hseen; simpl.
  - by rewrite app_nil_r.
  - rewrite reducer_eq. destruct (orderNumber item) as [n|] eqn:En.
    + destruct (decide (n ∈ seen)) as [Hin|Hout].
      * rewrite bool_decide_eq_true_2 by done.
        rewrite (bool_decide_eq_true_2 (Some n ∈ _)) by (by apply Hseen).
        apply IH. intros m. rewrite fmap_app, elem_of_app, <- Hseen.
        simpl. rewrite En, list_elem_of_singleton.
        split; [by left|]. intros [?|[= ->]]; done.
      * rewrite bool_decide_eq_false_2 by done.
        rewrite (bool_decide_eq_false_2 (Some n ∈ _)) by (by rewrite <- Hseen).
        rewrite (IH _ _ (earlier ++ [item])).
        -- simpl. by rewrite <- app_assoc.
        -- intros m. rewrite fmap_app, elem_of_app, <- Hseen, elem_of_union,
             elem_of_singleton. simpl. rewrite En, list_elem_of_singleton.
           split; [intros [->|?]; [by right|by left]
                  |intros [?|[= ->]]; [by right|by left]].
    + apply IH. intros m. rewrite fmap_app, elem_of_app, <- Hseen.
      simpl. rewrite En, list_elem_of_singleton.
      split; [by left|]. intros [?|?]; done.
Qed.

Lemma firstOccurrences_elem rows : forall earlier item n,
  (item, n) ∈ firstOccurrences orderNumber earlier rows ->
  item ∈ rows /\ orderNumber item = Some n
  /\ Some n ∉ orderNumber <$> earlier.
Proof.
  induction rows as [|r rest IH]; intros earlier item n; simpl.
  - by intros ?%elem_of_nil.
  - assert (Hrest : (item, n) ∈ firstOccurrences orderNumber (earlier ++ [r]) rest ->
                    item ∈ r :: rest /\ orderNumber item = Some n
                    /\ Some n ∉ orderNumber <$> earlier).
    { intros (? & ? & Hnot)%IH. split; [by right|]. split; [done|].
      intros Hin. apply Hnot. rewrite fmap_app, elem_of_app. by left. }
    destruct (orderNumber r) as [m|] eqn:Em; [|done].
    case_bool_decide as Hm; [done|].
    intros [[= -> ->]|?]%elem_of_cons; [|by apply Hrest].
    split; [by left|done].
Qed.

Lemma firstOccurrences_NoDup rows : forall earlier,
  NoDup (snd <$> firstOccurrences orderNumber earlier rows).
Proof.
  induction rows as [|r rest IH]; intros earlier; simpl.
  - constructor.
  - destruct (orderNumber r) as [m|] eqn:Em; [|done].
    case_bool_decide as Hm; [done|].
    simpl. constructor; [|done].
    intros ([item n] & Heq & Hin)%list_elem_of_fmap. simpl in Heq. subst n.
    apply firstOccurrences_elem in Hin as (_ & _ & Hnot).
    apply Hnot. rewrite fmap_app, elem_of_app. right.
    simpl. rewrite Em. by apply list_elem_of_singleton.
Qed.

Lemma firstOccurrences_sublist rows : forall earlier,
  (fst <$> firstOccurrences orderNumber earlier rows) `sublist_of` rows.
Proof.
  induction rows as [|r rest IH]; intros earlier; simpl.
  - constructor.
  - destruct (orderNumber r) as [m|]; [|by constructor].
    case_bool_decide; simpl; by constructor.
Qed.

(** A row is emitted exactly when it yields an order number that no row
    before it yields. *)
Lemma firstOccurrences_index rows : forall earlier item n,
  (item, n) ∈ firstOccurrences orderNumber earlier rows <->
  exists i, rows !! i = Some item /\ orderNumber item = Some n
            /\ Some n ∉ orderNumber <$> (earlier ++ take i rows).
Proof.
  induction rows as [|r rest IH]; intros earlier item n; simpl.
  - split; [by intros ?%elem_of_nil|]. by intros (i & ? & _).
  - assert (Hrest : (item, n) ∈ firstOccurrences orderNumber (earlier ++ [r]) rest <->
      exists i, (r :: rest) !! S i = Some item /\ orderNumber item = Some n
        /\ Some n ∉ orderNumber <$> (earlier ++ take (S i) (r :: rest))).
    { rewrite IH. simpl. by setoid_rewrite <- app_assoc. }
    assert (Hzero : forall P : nat -> Prop,
              (P 0%nat \/ exists i, P (S i)) <-> exists i, P i).
    { intros P. split.
      - intros [?|[i ?]]; eauto.
      - intros [[|i] ?]; eauto. }
    rewrite <- Hzero. simpl. rewrite app_nil_r.
    destruct (orderNumber r) as [m|] eqn:Em.
    + case_bool_decide as Hm.
      * rewrite Hrest. split; [by right|].
        intros [([= <-] & Hn & Hnot)|?]; [|done].
        rewrite Em in Hn. by injection Hn as <-.
      * rewrite elem_of_cons, Hrest. split.
        -- intros [[= -> ->]|?]; [by left|by right].
        -- intros [([= <-] & Hn & Hnot)|?]; [|by right].
           rewrite Em in Hn. injection Hn as <-. by left.
    + rewrite Hrest. split; [by right|].
      intros [([= <-] & Hn & _)|?]; [|done]. by rewrite Em in Hn.
Qed.

Hypothesis orderNumber_digits : forall item n,
  orderNumber item = Some n -> all_digits n = true.
Hypothesis mk_source_id : forall item n,
  exists store, source_id (mk item n) = store ++ js "-" ++ n.

Lemma orderComponent_mk item n :
  orderNumber item = Some n -> afterLastHyphen (source_id (mk item n)) = n.
Proof.
  intros Hn%orderNumber_digits%all_digits_spec.
  destruct (mk_source_id item n) as [store ->].
  apply afterLastHyphen_app, Hn.
Qed.

Lemma orderComponents_firstOccurrences rows earlier :
  (fun r => afterLastHyphen (source_id r)) <$>
    (uncurry mk <$> firstOccurrences orderNumber earlier rows)
  = snd <$> firstOccurrences orderNumber earlier rows.
Proof.
  rewrite <- list_fmap_compose. apply Forall_fmap_ext_1, Forall_forall.
  intros [item n] Hin; simpl.
  apply orderComponent_mk. by apply firstOccurrences_elem in Hin as (_ & ? & _).
Qed.

End Reduction.

(** ** The two transformers as instances *)

Lemma reducerA_eq (formattedData : list ShipmentRecord)
    (uniqueOrderIds : gset (list N)) (item : row) :
  RevA.reducer (formattedData, uniqueOrderIds) item =
    match orderNumberA item with
    | Some n =>
        if bool_decide (n ∈ uniqueOrderIds) then (formattedData, uniqueOrderIds)
        else (formattedData ++ [RevA.shipmentRecord item n], {[ n ]} ∪ uniqueOrderIds)
    | None => (formattedData, uniqueOrderIds)
    end.
Proof.
  unfold RevA.reducer, orderNumberA.
  destruct (obj_get _ item) as [po|]; [|done].
  destruct (truthy_str po); [|done].
  destruct (RevA.sanitizedValue po) as [sv|]; [|done].
  destruct (truthy_str sv); simpl; [|done].
  by case_bool_decide.
Qed.

Lemma reducerB_eq (formattedData : list ShipmentRecord)
    (uniqueOrderIds : gset (list N)) (item : row) :
  RevB.reducer (formattedData, uniqueOrderIds) item =
    match orderNumberB item with
    | Some n =>
        if bool_decide (n ∈ uniqueOrderIds) then (formattedData, uniqueOrderIds)
        else (formattedData ++ [RevB.shipmentRecord item n], {[ n ]} ∪ uniqueOrderIds)
    | None => (formattedData, uniqueOrderIds)
    end.
Proof.
  unfold RevB.reducer, orderNumberB.
  destruct (obj_get _ item) as [po|]; [|done].
  destruct (truthy_str po); [|done]. simpl.
  destruct (truthy_str (RevB.sanitizedValue po)); simpl; [|done].
  by case_bool_decide.
Qed.

Lemma source_id_A item n :
  exists store, source_id (RevA.shipmentRecord item n) = store ++ js "-" ++ n.
Proof.
  unfold RevA.shipmentRecord. destruct (destructure2 _). simpl. eauto.
Qed.

Lemma source_id_B item n :
  exists store, source_id (RevB.shipmentRecord item n) = store ++ js "-" ++ n.
Proof.
  unfold RevB.shipmentRecord. destruct (destructure2 _). simpl. eauto.
Qed.

Lemma formatA_firstOccurrences rows :
  RevA.formatCannonHillData rows =
    uncurry RevA.shipmentRecord <$> firstOccurrences orderNumberA [] rows.
Proof.
  unfold RevA.formatCannonHillData.
  rewrite (foldl_reducer orderNumberA RevA.shipmentRecord RevA.reducer reducerA_eq
             rows [] ∅ []); [done|].
  intros n. simpl. rewrite elem_of_empty, elem_of_nil. done.
Qed.

Lemma formatB_firstOccurrences rows :
  RevB.formatCannonHillData rows =
    uncurry RevB.shipmentRecord <$> firstOccurrences orderNumberB [] rows.
Proof.
  unfold RevB.formatCannonHillData.
  rewrite (foldl_reducer orderNumberB RevB.shipmentRecord RevB.reducer reducerB_eq
             rows [] ∅ []); [done|].
  intros n. simpl. rewrite elem_of_empty, elem_of_nil. done.
Qed.

Lemma emittedA rows r :
  r ∈ RevA.formatCannonHillData rows ->
  exists item n, (item, n) ∈ firstOccurrences orderNumberA [] rows
                 /\ r = RevA.shipmentRecord item n.
Proof.
  rewrite formatA_firstOccurrences.
  intros ([item n] & -> & Hin)%list_elem_of_fmap. eauto.
Qed.

Lemma emittedB rows r :
  r ∈ RevB.formatCannonHillData rows ->
  exists item n, (item, n) ∈ firstOccurrences orderNumberB [] rows
                 /\ r = RevB.shipmentRecord item n.
Proof.
  rewrite formatB_firstOccurrences.
  intros ([item n] & -> & Hin)%list_elem_of_fmap. eauto.
Qed.

(** ** Claims on the Row Transformer *)

(** C3. In every revision the order numbers of the emitted records (what
    follows the last ['-'] of [source_id]) are pairwise distinct; the
    output is the image, in input order, of exactly those rows that yield an
    order number which no earlier row yields, so of several rows with the
    same order number only the first contributes a record. *)
Theorem formatCannonHillData_first_order_number_wins (rows : list row) :
  (RevA.formatCannonHillData rows =
     uncurry RevA.shipmentRecord <$> firstOccurrences orderNumberA [] rows
   /\ (fun r => afterLastHyphen (source_id r)) <$> RevA.formatCannonHillData rows
      = snd <$> firstOccurrences orderNumberA [] rows
   /\ NoDup ((fun r => afterLastHyphen (source_id r)) <$> RevA.formatCannonHillData rows)
   /\ (fst <$> firstOccurrences orderNumberA [] rows) `sublist_of` rows
   /\ forall item n,
        (item, n) ∈ firstOccurrences orderNumberA [] rows <->
        exists i, rows !! i = Some item /\ orderNumberA item = Some n
                  /\ Some n ∉ orderNumberA <$> take i rows)
  /\
  (RevB.formatCannonHillData rows =
     uncurry RevB.shipmentRecord <$> firstOccurrences orderNumberB [] rows
   /\ (fun r => afterLastHyphen (source_id r)) <$> RevB.formatCannonHillData rows
      = snd <$> firstOccurrences orderNumberB [] rows
   /\ NoDup ((fun r => afterLastHyphen (source_id r)) <$> RevB.formatCannonHillData rows)
   /\ (fst <$> firstOccurrences orderNumberB [] rows) `sublist_of` rows
   /\ forall item n,
        (item, n) ∈ firstOccurrences orderNumberB [] rows <->
        exists i, rows !! i = Some item /\ orderNumberB item = Some n
                  /\ Some n ∉ orderNumberB <$> take i rows).
Proof.
  split.
  - assert (Hc := orderComponents_firstOccurrences orderNumberA RevA.shipmentRecord
                    orderNumberA_digits source_id_A rows []).
    rewrite formatA_firstOccurrences, Hc.
    repeat split; try done.
    + apply firstOccurrences_NoDup.
    + apply firstOccurrences_sublist.
    + by intros ?%firstOccurrences_index.
    + intros ?. by apply firstOccurrences_index.
  - assert (Hc := orderComponents_firstOccurrences orderNumberB RevB.shipmentRecord
                    orderNumberB_digits source_id_B rows []).
    rewrite formatB_firstOccurrences, Hc.
    repeat split; try done.
    + apply firstOccurrences_NoDup.
    + apply firstOccurrences_sublist.
    + by intros ?%firstOccurrences_index.
    + intros ?. by apply firstOccurrences_index.
Qed.

(** C10. For every record emitted by any revision, what follows the last
    ['-'] of its [source_id] is a non-empty string of digits, and it is the
    order number under which the row it comes from was entered in the
    deduplication set. *)
Theorem order_component_nonempty_digits (rows : list row) (r : ShipmentRecord) :
  r ∈ RevA.formatCannonHillData rows \/ r ∈ RevB.formatCannonHillData rows ->
  afterLastHyphen (source_id r) <> []
  /\ forallb is_digit (afterLastHyphen (source_id r)) = true
  /\ (exists store, source_id r = store ++ js "-" ++ afterLastHyphen (source_id r))
  /\ exists item,
       item ∈ rows
       /\ ((r ∈ RevA.formatCannonHillData rows
            /\ (item, afterLastHyphen (source_id r)) ∈ firstOccurrences orderNumberA [] rows)
           \/ (r ∈ RevB.formatCannonHillData rows
               /\ (item, afterLastHyphen (source_id r)) ∈ firstOccurrences orderNumberB [] rows)).
Proof.
  intros [Hr|Hr].
  - destruct (emittedA _ _ Hr) as (item & n & Hin & ->).
    destruct (firstOccurrences_elem _ _ _ _ _ Hin) as (Hrow & Hn & _).
    rewrite (orderComponent_mk orderNumberA RevA.shipmentRecord
               orderNumberA_digits source_id_A item n Hn).
    destruct (proj1 (all_digits_spec n) (orderNumberA_digits _ _ Hn)) as [Hne Hd].
    repeat split; try done.
    + destruct (source_id_A item n) as [store Hs]. eauto.
    + exists item. split; [done|]. by left.
  - destruct (emittedB _ _ Hr) as (item & n & Hin & ->).
    destruct (firstOccurrences_elem _ _ _ _ _ Hin) as (Hrow & Hn & _).
    rewrite (orderComponent_mk orderNumberB RevB.shipmentRecord
               orderNumberB_digits source_id_B item n Hn).
    destruct (proj1 (all_digits_spec n) (orderNumberB_digits _ _ Hn)) as [Hne Hd].
    repeat split; try done.
    + destruct (source_id_B item n) as [store Hs]. eauto.
    + exists item. split; [done|]. by right.
Qed.

(** ** The fields of an emitted record *)

Lemma map_lookup {A B} (f : A -> B) (l : list A) (i : nat) :
  List.map f l !! i = f <$> (l !! i).
Proof. revert i. induction l as [|x l IH]; intros [|i]; simpl; auto. Qed.

Lemma shipmentMethodMap_lookup code :
  shipmentMethodMap !! code =
    if bool_decide (code = js "G") then Some (js "Ground")
    else if bool_decide (code = js "3RD") then Some (js "3 Day Select")
    else if bool_decide (code = js "2ND") then Some (js "2nd Day Air")
    else None.
Proof.
  unfold shipmentMethodMap. simpl list_to_map.
  rewrite !lookup_insert, lookup_empty.
  repeat (case_decide; [subst code; by vm_compute|]).
  by rewrite !bool_decide_eq_false_2 by done.
Qed.

Lemma storeIdMap_lookup customer :
  storeIdMap !! customer =
    if bool_decide (customer = js "RTSCS") then Some (js "68125")
    else if bool_decide (customer = js "RTFMS") then Some (js "118741")
    else if bool_decide (customer = js "HERO") then Some (js "14077")
    else None.
Proof.
  unfold storeIdMap. simpl list_to_map.
  rewrite !lookup_insert, lookup_empty.
  repeat (case_decide; [subst customer; by vm_compute|]).
  by rewrite !bool_decide_eq_false_2 by done.
Qed.

Lemma method_methodValue code :
  orResidential (mapShipmentMethod code) = methodValue code.
Proof.
  unfold orResidential, mapShipmentMethod, methodValue, tableGet, methodName.
  rewrite shipmentMethodMap_lookup.
  repeat (case_bool_decide; [subst code; by vm_compute|]).
  destruct (inherited code); simpl; [done|].
  unfold truthy_str. by rewrite bool_decide_eq_false_2.
Qed.

Lemma storeId_storeText (customer : option jsstring) :
  interpolateValue
    (or_value (tableGet storeIdMap (interpolate customer)) (Str <$> customer))
  = storeText (interpolate customer).
Proof.
  unfold storeText, storeIdOf, tableGet. rewrite storeIdMap_lookup.
  repeat (match goal with
          | |- context [bool_decide (interpolate customer = ?c)] =>
              destruct (decide (interpolate customer = c)) as [->|?];
              [by vm_compute|rewrite (bool_decide_eq_false_2 (interpolate customer = c)) by done]
          end).
  destruct (inherited (interpolate customer)); simpl; [done|].
  by destruct customer.
Qed.

Lemma via_parts item :
  destructure2 (shippedViaParts item) = (viaSegment 0 item, viaSegment 1 item).
Proof.
  unfold destructure2, shippedViaParts, viaSegment. rewrite !map_lookup.
  assert (or_default (obj_get (js "Shipped_VIA") item) [] =
          match obj_get (js "Shipped_VIA") item with Some s => s | None => [] end)
    as ->.
  { destruct (obj_get _ item) as [s|]; [|done].
    unfold or_default, truthy_str. by case_bool_decide. }
  by do 2 destruct (split 45 _ !! _).
Qed.

Lemma recordA_fields item n : RevA.shipmentRecord item n = recordOf item n.
Proof.
  unfold RevA.shipmentRecord, lookupStoreId, recordOf. rewrite via_parts.
  by rewrite method_methodValue, storeId_storeText.
Qed.

Lemma recordB_fields item n : RevB.shipmentRecord item n = recordOf item n.
Proof.
  unfold RevB.shipmentRecord, lookupStoreId, recordOf. rewrite via_parts.
  by rewrite method_methodValue, storeId_storeText.
Qed.

(** Every emitted record comes from an input row that yields an order
    number, and has the fields computed from that row. *)
Lemma emitted_fields rows r :
  r ∈ RevA.formatCannonHillData rows \/ r ∈ RevB.formatCannonHillData rows ->
  exists item n,
    item ∈ rows
    /\ ((r ∈ RevA.formatCannonHillData rows /\ orderNumberA item = Some n)
        \/ (r ∈ RevB.formatCannonHillData rows /\ orderNumberB item = Some n))
    /\ r = recordOf item n.
Proof.
  intros [Hr|Hr].
  - destruct (emittedA _ _ Hr) as (item & n & Hin & ->).
    destruct (firstOccurrences_elem _ _ _ _ _ Hin) as (Hrow & Hn & _).
    exists item, n. split; [done|]. split; [by left|apply recordA_fields].
  - destruct (emittedB _ _ Hr) as (item & n & Hin & ->).
    destruct (firstOccurrences_elem _ _ _ _ _ Hin) as (Hrow & Hn & _).
    exists item, n. split; [done|]. split; [by right|apply recordB_fields].
Qed.

(** C4, against the lookup of line 101 (356, 565): the method code
    ["constructor"] is in no table, so it should pass through unchanged, as
    [methodName] has it; but [shipmentMethodMap["constructor"]] is the
    function every object inherits, which is truthy, and it becomes the
    [shipment_method] of the record in place of the code. *)
Theorem shipment_method_of_inherited_code :
  viaSegment 1 constructorRow = js "constructor"
  /\ methodName (js "constructor") = js "constructor"
  /\ shipment_method <$> RevA.formatCannonHillData [constructorRow]
     = [Member (js "constructor")]
  /\ shipment_method <$> RevB.formatCannonHillData [constructorRow]
     = [Member (js "constructor")]
  /\ carrier_code <$> RevA.formatCannonHillData [constructorRow] = [js "UPS"].
Proof. by vm_compute. Qed.

(** C5, against the lookup of line 103 (358, 567): the customer number
    ["constructor"] is in no table, so the store id should be the raw
    customer number, as [storeIdOf] has it; but
    [storeIdMap["constructor"]] is the function every object inherits, and
    its source text is interpolated in [source_id]. *)
Theorem source_id_of_inherited_customer :
  obj_get (js "Customer_Number") constructorRow = Some (js "constructor")
  /\ storeIdOf (js "constructor") ++ js "-" ++ js "7" = js "constructor-7"
  /\ source_id <$> RevA.formatCannonHillData [constructorRow]
     = [js "function Object() { [native code] }-7"]
  /\ source_id <$> RevB.formatCannonHillData [constructorRow]
     = [js "function Object() { [native code] }-7"].
Proof. by vm_compute. Qed.

Example sampleRow_A : RevA.formatCannonHillData [sampleRow; sampleRow] = [sampleRecord].
Proof. by vm_compute. Qed.

Example sampleRow_B : RevB.formatCannonHillData [sampleRow; sampleRow] = [sampleRecord].
Proof. by vm_compute. Qed.

Lemma sampleRecord_emitted :
  sampleRecord ∈ RevA.formatCannonHillData [sampleRow]
  \/ sampleRecord ∈ RevB.formatCannonHillData [sampleRow].
Proof. left. vm_compute. constructor. Defined.

Lemma formatCannonHillData_first_order_number_wins_witness :
  NoDup ((fun r => afterLastHyphen (source_id r)) <$>
           RevA.formatCannonHillData [sampleRow; mixedRow; sampleRow; mixedRow]).
Proof.
  destruct (formatCannonHillData_first_order_number_wins
              [sampleRow; mixedRow; sampleRow; mixedRow]) as [(_ & _ & H & _) _].
  exact H.
Defined.

Example first_order_number_wins_run :
  RevA.formatCannonHillData [sampleRow; mixedRow; sampleRow; mixedRow]
  = [sampleRecord; RevA.shipmentRecord mixedRow (js "34")].
Proof. by vm_compute. Qed.

Lemma order_component_nonempty_digits_witness :
  afterLastHyphen (source_id sampleRecord) <> []
  /\ forallb is_digit (afterLastHyphen (source_id sampleRecord)) = true.
Proof.
  destruct (order_component_nonempty_digits [sampleRow] sampleRecord
              sampleRecord_emitted) as (H1 & H2 & _).
  exact (conj H1 H2).
Defined.

(** ** Every record is the record of its own row *)

(** X17. In every revision the output is, record by record and in order,
    what lines 100-113 (355-365) build from the rows that yield an order
    number no earlier row yields, each record from its own row:
    [carrier_code] is the first trimmed ['-']-piece of [Shipped_VIA] (the
    empty string when absent); [shipment_method] is, for the second piece,
    the inherited member when the piece names a member of
    [Object.prototype], and otherwise [Ground] for [G], [3 Day Select] for
    [3RD], [2nd Day Air] for [2ND], [Residential] for the empty piece and
    the piece itself for any other; [tracking_number] is the row's
    [Tracking_Number]; and [source_id] is the store text, a ['-'] and the
    order number. *)
Theorem formatCannonHillData_records (rows : list row) :
  RevA.formatCannonHillData rows
    = uncurry recordOf <$> firstOccurrences orderNumberA [] rows
  /\ RevB.formatCannonHillData rows
    = uncurry recordOf <$> firstOccurrences orderNumberB [] rows
  /\ (forall code, inherited code = false ->
        methodValue code = Str (methodName code)
        /\ (code <> js "G" -> code <> js "3RD" -> code <> js "2ND" -> code <> [] ->
            methodValue code = Str code))
  /\ methodValue (js "G") = Str (js "Ground")
  /\ methodValue (js "3RD") = Str (js "3 Day Select")
  /\ methodValue (js "2ND") = Str (js "2nd Day Air")
  /\ methodValue [] = Str (js "Residential")
  /\ (forall item n,
        obj_get (js "Shipped_VIA") item = Some (js "UPS - G") ->
        carrier_code (recordOf item n) = js "UPS"
        /\ shipment_method (recordOf item n) = Str (js "Ground"))
  /\ (forall item n,
        obj_get (js "Shipped_VIA") item = None
        \/ obj_get (js "Shipped_VIA") item = Some [] ->
        carrier_code (recordOf item n) = []
        /\ shipment_method (recordOf item n) = Str (js "Residential")).
Proof.
  split; [|split].
  - rewrite formatA_firstOccurrences.
    apply Forall_fmap_ext_1, Forall_forall. intros [item n] _. apply recordA_fields.
  - rewrite formatB_firstOccurrences.
    apply Forall_fmap_ext_1, Forall_forall. intros [item n] _. apply recordB_fields.
  - split.
    { intros code Hcode. unfold methodValue. rewrite Hcode. split; [done|].
      intros H1 H2 H3 H4. unfold methodName.
      by rewrite !bool_decide_eq_false_2. }
    do 4 (split; [by vm_compute|]). split.
    + intros item n Hvia. unfold recordOf, viaSegment. simpl. by rewrite Hvia.
    + intros item n Hvia. unfold recordOf, viaSegment. simpl.
      by destruct Hvia as [-> | ->].
Qed.

Lemma formatCannonHillData_records_witness :
  RevA.formatCannonHillData [sampleRow; constructorRow]
  = [sampleRecord; recordOf constructorRow (js "7")].
Proof.
  rewrite (proj1 (formatCannonHillData_records [sampleRow; constructorRow])).
  reflexivity.
Defined.

(** X18. In every revision the [source_id] of the record built from a row
    and its order number [n] (lines 103-109, 358-361) is the store id, a
    ['-'] and [n]. For a [Customer_Number] that names no member of
    [Object.prototype] the store id is [68125] for [RTSCS], [118741] for
    [RTFMS], [14077] for [HERO] and the customer number itself otherwise; a
    row without [Customer_Number] gets ["undefined"]. So [RTSCS] with the
    order number ["12345"] gives ["68125-12345"] and [UNKNOWN1] gives
    ["UNKNOWN1-"] followed by the order number. *)
Theorem shipmentRecord_source_id (item : row) (n customer : jsstring) :
  obj_get (js "Customer_Number") item = Some customer ->
  inherited customer = false ->
  source_id (RevA.shipmentRecord item n) = storeIdOf customer ++ js "-" ++ n
  /\ source_id (RevB.shipmentRecord item n) = storeIdOf customer ++ js "-" ++ n
  /\ (customer = js "RTSCS" -> n = js "12345" ->
      source_id (RevA.shipmentRecord item n) = js "68125-12345")
  /\ (customer = js "UNKNOWN1" ->
      source_id (RevA.shipmentRecord item n) = js "UNKNOWN1-" ++ n)
  /\ (customer <> js "RTSCS" -> customer <> js "RTFMS" -> customer <> js "HERO" ->
      source_id (RevA.shipmentRecord item n) = customer ++ js "-" ++ n)
  /\ (forall item', obj_get (js "Customer_Number") item' = None ->
        source_id (RevA.shipmentRecord item' n) = js "undefined-" ++ n
        /\ source_id (RevB.shipmentRecord item' n) = js "undefined-" ++ n).
Proof.
  intros Hc Hi.
  assert (HA : source_id (RevA.shipmentRecord item n) = storeIdOf customer ++ js "-" ++ n).
  { rewrite recordA_fields. unfold recordOf, storeText. simpl.
    by rewrite Hc; simpl; rewrite Hi. }
  assert (HB : source_id (RevB.shipmentRecord item n) = storeIdOf customer ++ js "-" ++ n).
  { rewrite recordB_fields. unfold recordOf, storeText. simpl.
    by rewrite Hc; simpl; rewrite Hi. }
  split; [done|]. split; [done|]. rewrite HA. split; [|split; [|split]].
  - by intros -> ->.
  - by intros ->.
  - intros H1 H2 H3. unfold storeIdOf. by rewrite !bool_decide_eq_false_2.
  - intros item' Hnone. rewrite recordA_fields, recordB_fields.
    unfold recordOf. simpl. by rewrite Hnone.
Qed.

Lemma shipmentRecord_source_id_witness :
  source_id (RevA.shipmentRecord sampleRow (js "12345")) = js "68125-12345".
Proof.
  refine (proj1 (proj2 (proj2 (shipmentRecord_source_id sampleRow (js "12345")
                                 (js "RTSCS") eq_refl eq_refl))) eq_refl eq_refl).
Defined.

(** ** The two readings of the order number *)

(** C2, as stated, against [RevA] (lines 94-97): on ["AB12/34"] the first
    ['/']-segment has the digits ["12"], which [RevB] extracts, while [RevA]
    extracts ["34"]; and on ["A1/x"] the digits are ["1"] while [RevA] finds
    no order number. *)
Lemma order_number_readings_disagree :
  RevB.sanitizedValue (js "AB12/34") = js "12"
  /\ slashDigits (js "AB12/34") = js "12"
  /\ RevA.sanitizedValue (js "AB12/34") = Some (js "34")
  /\ (afterLastHyphen ∘ source_id) <$> RevA.formatCannonHillData [mixedRow]
     = [js "34"]
  /\ (afterLastHyphen ∘ source_id) <$> RevB.formatCannonHillData [mixedRow]
     = [js "12"]
  /\ slashDigits (js "A1/x") = js "1"
  /\ RevA.sanitizedValue (js "A1/x") = None.
Proof. by vm_compute. Qed.

(** C2, amended. For a row whose [Cust_PO_Number] is a non-empty string:
    [RevB] and [RevC] take the first ['/']-segment, strip its non-digits and
    trim, which is the string of the digits that precede the first ['/'], and
    skip the row when it is empty; [RevA] takes the first piece, among those
    between the runs of ['/'], whitespace and ['-'], that is a non-empty
    string of digits, and skips the row when there is none. *)
Theorem order_number_extraction (item : row) (po : jsstring) :
  obj_get (js "Cust_PO_Number") item = Some po ->
  po <> [] ->
  ((exists segment,
      split 47 po !! 0%nat = Some segment
      /\ RevB.sanitizedValue po = trim (List.filter is_digit segment))
   /\ RevB.sanitizedValue po = slashDigits po
   /\ orderNumberB item =
        (if bool_decide (slashDigits po = []) then None else Some (slashDigits po))
   /\ (slashDigits po = [] -> forall acc, RevB.reducer acc item = acc)
   /\ (slashDigits po <> [] ->
       RevB.formatCannonHillData [item] = [RevB.shipmentRecord item (slashDigits po)]))
  /\
  (RevA.sanitizedValue po = List.find all_digits (split_runs false po)
   /\ orderNumberA item = List.find all_digits (split_runs false po)
   /\ (List.find all_digits (split_runs false po) = None ->
       forall acc, RevA.reducer acc item = acc)
   /\ (forall n, List.find all_digits (split_runs false po) = Some n ->
       RevA.formatCannonHillData [item] = [RevA.shipmentRecord item n])).
Proof.
  intros Hpo Hne.
  assert (Htruthy : truthy_str po = true).
  { unfold truthy_str. by rewrite bool_decide_eq_false_2. }
  assert (HB : orderNumberB item =
    if bool_decide (slashDigits po = []) then None else Some (slashDigits po)).
  { unfold orderNumberB. rewrite Hpo, Htruthy. simpl.
    rewrite sanitizedValueB_slashDigits. unfold truthy_str.
    by case_bool_decide. }
  assert (HA : orderNumberA item = List.find all_digits (split_runs false po)).
  { unfold orderNumberA. rewrite Hpo, Htruthy, sanitizedValueA_find.
    destruct (List.find _ _) as [n|] eqn:E; [|done].
    apply find_some in E as [_ [E _]%all_digits_spec].
    unfold truthy_str. by rewrite bool_decide_eq_false_2. }
  split.
  - split.
    { eexists. split; [apply split_head|].
      unfold RevB.sanitizedValue. by rewrite split_head. }
    split; [apply sanitizedValueB_slashDigits|]. split; [done|]. split.
    + intros Hempty [formattedData uniqueOrderIds].
      rewrite reducerB_eq, HB. by rewrite bool_decide_eq_true_2.
    + intros Hdigits. unfold RevB.formatCannonHillData.
      change (foldl RevB.reducer ([], ∅) [item]) with (RevB.reducer ([], ∅) item).
      rewrite reducerB_eq, HB. rewrite bool_decide_eq_false_2 by done.
      by rewrite bool_decide_eq_false_2 by set_solver.
  - split; [apply sanitizedValueA_find|]. split; [done|]. split.
    + intros Hnone [formattedData uniqueOrderIds].
      by rewrite reducerA_eq, HA, Hnone.
    + intros n Hn. unfold RevA.formatCannonHillData.
      change (foldl RevA.reducer ([], ∅) [item]) with (RevA.reducer ([], ∅) item).
      rewrite reducerA_eq, HA, Hn.
      by rewrite bool_decide_eq_false_2 by set_solver.
Qed.

Lemma order_number_extraction_witness :
  RevB.sanitizedValue (js "AB12/34") = slashDigits (js "AB12/34")
  /\ RevA.sanitizedValue (js "AB12/34")
     = List.find all_digits (split_runs false (js "AB12/34")).
Proof.
  destruct (order_number_extraction mixedRow (js "AB12/34") eq_refl
              ltac:(discriminate)) as [(_ & H1 & _) (H2 & _)].
  exact (conj H1 H2).
Defined.

(** ** Submission Client: the retry loop *)

Section RetryLoop.

Variable attempt : nat -> result SubmissionResult.
Variable data : list ShipmentRecord.
Variable retries : nat.
Variable loop : list nat -> list event * completion.

Hypothesis loop_cons : forall a later,
  loop (a :: later) =
    match attempt a with
    | Ok r => ([Fetch data], Returns r)
    | Throw e =>
        if (a =? retries)%nat then ([Fetch data], Throws e)
        else let '(trace, c) := loop later in
             (Fetch data :: Wait (a * 1000) :: trace, c)
    end.

Lemma loop_all_fail len : forall start,
  (1 <= len)%nat -> (start + len = S retries)%nat ->
  (forall a, (start <= a <= retries)%nat -> exists e, attempt a = Throw e) ->
  exists e, attempt retries = Throw e
            /\ loop (seq start len) = (retryTrace data start len, Throws e).
Proof.
  induction len as [|len IH]; intros start Hlen Hsum Hfail; [lia|].
  destruct (Hfail start ltac:(lia)) as [e0 He0].
  simpl seq. rewrite loop_cons, He0.
  destruct len as [|len].
  - assert (start = retries) as -> by lia.
    rewrite Nat.eqb_refl. eauto.
  - rewrite (proj2 (Nat.eqb_neq start retries)) by lia.
    destruct (IH (S start)) as (e & He & ->); [lia|lia| |].
    + intros a Ha. apply Hfail. lia.
    + eauto.
Qed.

Lemma loop_first_success len : forall start k r,
  (start <= k)%nat -> (k < start + len)%nat -> (k <= retries)%nat ->
  (forall a, (start <= a < k)%nat -> exists e, attempt a = Throw e) ->
  attempt k = Ok r ->
  loop (seq start len) = (retryTrace data start (S (k - start)), Returns r).
Proof.
  induction len as [|len IH]; intros start k r Hk1 Hk2 Hk3 Hfail Hok; [lia|].
  simpl seq. rewrite loop_cons.
  destruct (decide (start = k)) as [->|Hne].
  - rewrite Hok, Nat.sub_diag. done.
  - destruct (Hfail start ltac:(lia)) as [e0 ->].
    rewrite (proj2 (Nat.eqb_neq start retries)) by lia.
    rewrite (IH (S start) k r) by (try lia; try done; intros a Ha; apply Hfail; lia).
    replace (k - start)%nat with (S (k - S start)) by lia. done.
Qed.

Lemma retryTrace_fetches first attempts :
  length (List.filter isFetch (retryTrace data first attempts)) = attempts.
Proof.
  revert first. induction attempts as [|[|n] IH]; intros first; simpl; auto.
  specialize (IH (S first)). simpl in IH. by rewrite IH.
Qed.

End RetryLoop.

Lemma retryLoopA_cons JSON_parse net data retries a later :
  RevA.retryLoop JSON_parse net data retries (a :: later) =
    match RevA.attemptOnce JSON_parse (net a) with
    | Ok r => ([Fetch data], Returns r)
    | Throw e =>
        if (a =? retries)%nat then ([Fetch data], Throws e)
        else let '(trace, c) := RevA.retryLoop JSON_parse net data retries later in
             (Fetch data :: Wait (a * 1000) :: trace, c)
    end.
Proof. done. Qed.

Lemma retryLoopB_cons JSON_parse net data retries a later :
  RevB.retryLoop JSON_parse net data retries (a :: later) =
    match RevB.attemptOnce JSON_parse (net a) with
    | Ok r => ([Fetch data], Returns r)
    | Throw e =>
        if (a =? retries)%nat then ([Fetch data], Throws e)
        else let '(trace, c) := RevB.retryLoop JSON_parse net data retries later in
             (Fetch data :: Wait (a * 1000) :: trace, c)
    end.
Proof. done. Qed.

(** X2. The retry loop of [RevA] (lines 143-185) and of [RevB] (lines 385-418),
    for a non-empty [data] and at least one attempt ([retries] is 3 when the
    caller passes none, as the route handlers do). If every attempt fails,
    [retries] requests are sent, attempt [a] being followed by a wait of
    [a * 1000] ms when another attempt follows, and the failure of the last
    attempt is thrown. If attempt [k] is the first to succeed, exactly [k]
    requests are sent and its result is returned. *)
Theorem postToSubmitRoute_retries
    (JSON_parse : list N -> option json) (net : nat -> reply)
    (record : ShipmentRecord) (others : list ShipmentRecord) (retries : nat) :
  (1 <= retries)%nat ->
  let data := record :: others in
  ((forall a, (1 <= a <= retries)%nat ->
      exists e, RevA.attemptOnce JSON_parse (net a) = Throw e) ->
   exists e, RevA.attemptOnce JSON_parse (net retries) = Throw e
     /\ RevA.postToSubmitRoute JSON_parse net data retries
        = (retryTrace data 1 retries, Throws e))
  /\ (forall k r, (1 <= k <= retries)%nat ->
      (forall a, (1 <= a < k)%nat ->
         exists e, RevA.attemptOnce JSON_parse (net a) = Throw e) ->
      RevA.attemptOnce JSON_parse (net k) = Ok r ->
      RevA.postToSubmitRoute JSON_parse net data retries
      = (retryTrace data 1 k, Returns r))
  /\ ((forall a, (1 <= a <= retries)%nat ->
         exists e, RevB.attemptOnce JSON_parse (net a) = Throw e) ->
      exists e, RevB.attemptOnce JSON_parse (net retries) = Throw e
        /\ RevB.postToSubmitRoute JSON_parse net data retries
           = (retryTrace data 1 retries, Throws e))
  /\ (forall k r, (1 <= k <= retries)%nat ->
      (forall a, (1 <= a < k)%nat ->
         exists e, RevB.attemptOnce JSON_parse (net a) = Throw e) ->
      RevB.attemptOnce JSON_parse (net k) = Ok r ->
      RevB.postToSubmitRoute JSON_parse net data retries
      = (retryTrace data 1 k, Returns r))
  /\ (forall k, length (List.filter isFetch (retryTrace data 1 k)) = k).
Proof.
  intros Hretries data. split; [|split; [|split; [|split]]].
  - intros Hfail.
    change (RevA.postToSubmitRoute JSON_parse net data retries)
      with (RevA.retryLoop JSON_parse net data retries (seq 1 retries)).
    apply (loop_all_fail (fun a => RevA.attemptOnce JSON_parse (net a)) data retries
             (RevA.retryLoop JSON_parse net data retries)
             (retryLoopA_cons JSON_parse net data retries)); [done|lia|done].
  - intros k r Hk Hfail Hok.
    change (RevA.postToSubmitRoute JSON_parse net data retries)
      with (RevA.retryLoop JSON_parse net data retries (seq 1 retries)).
    rewrite (loop_first_success (fun a => RevA.attemptOnce JSON_parse (net a)) data
               retries (RevA.retryLoop JSON_parse net data retries)
               (retryLoopA_cons JSON_parse net data retries) retries 1 k r);
      try done; try lia.
    by replace (S (k - 1)) with k by lia.
  - intros Hfail. unfold RevB.postToSubmitRoute.
    apply (loop_all_fail (fun a => RevB.attemptOnce JSON_parse (net a)) data retries
             (RevB.retryLoop JSON_parse net data retries)
             (retryLoopB_cons JSON_parse net data retries)); [done|lia|done].
  - intros k r Hk Hfail Hok. unfold RevB.postToSubmitRoute.
    rewrite (loop_first_success (fun a => RevB.attemptOnce JSON_parse (net a)) data
               retries (RevB.retryLoop JSON_parse net data retries)
               (retryLoopB_cons JSON_parse net data retries) retries 1 k r);
      try done; try lia.
    by replace (S (k - 1)) with k by lia.
  - intros k. apply retryTrace_fetches.
Qed.

Lemma postToSubmitRoute_retries_witness :
  exists e,
    RevA.attemptOnce (fun _ => None) (alwaysDown 3%nat) = Throw e
    /\ RevA.postToSubmitRoute (fun _ => None) alwaysDown [sampleRecord] 3
       = (retryTrace [sampleRecord] 1 3, Throws e).
Proof.
  apply (postToSubmitRoute_retries (fun _ => None) alwaysDown sampleRecord [] 3).
  - lia.
  - intros a _. eexists. reflexivity.
Defined.

Example postToSubmitRoute_A_down JSON_parse :
  RevA.postToSubmitRoute JSON_parse alwaysDown [sampleRecord] 3 =
    ([Fetch [sampleRecord]; Wait 1000; Fetch [sampleRecord]; Wait 2000;
      Fetch [sampleRecord]],
     Throws (HttpError 500 (js "down"))).
Proof. done. Qed.

(** C7, against [RevC] (lines 589-613): the client sends exactly one
    request whatever the reply; on a failed POST it throws at once, with no
    wait and no second attempt, where [RevA] and [RevB] go through three
    attempts. *)
Theorem postToSubmitRoute_C_single_attempt
    (JSON_parse : list N -> option json) (data : list ShipmentRecord) :
  (forall net, exists c,
      RevC.postToSubmitRoute JSON_parse net data = ([Fetch data], c))
  /\ RevC.postToSubmitRoute JSON_parse alwaysDown data
     = ([Fetch data], Throws (HttpError 500 (js "down")))
  /\ RevB.postToSubmitRoute JSON_parse alwaysDown data 3
     = ([Fetch data; Wait 1000; Fetch data; Wait 2000; Fetch data],
        Throws (HttpError 500 (js "down"))).
Proof.
  split; [|done].
  intros net. unfold RevC.postToSubmitRoute.
  destruct (RevB.attemptOnce JSON_parse (net 1%nat)); eauto.
Qed.

(** ** Submission Client: the input guard *)

(** X1. [RevA] (lines 130-135): an empty [data] throws before any request is
    sent, so that a request is sent only for a non-empty [data]. *)
Theorem postToSubmitRoute_A_guard
    (JSON_parse : list N -> option json) (net : nat -> reply) (retries : nat) :
  RevA.postToSubmitRoute JSON_parse net [] retries
    = ([], Throws (Error (js "No valid data to send to submit route")))
  /\ forall data body,
       Fetch body ∈ (RevA.postToSubmitRoute JSON_parse net data retries).1 ->
       data <> [].
Proof.
  split; [done|].
  intros [|record others] body; [|done].
  by intros ?%elem_of_nil.
Qed.

(** C1, against [RevB] (lines 381-391) and [RevC] (lines 589-597): called
    with the empty list and the default of three attempts, the client sends
    a request with the empty list as body; [RevA] throws without sending. *)
Theorem postToSubmitRoute_empty_input
    (JSON_parse : list N -> option json) (net : nat -> reply) :
  (exists trace c,
     RevB.postToSubmitRoute JSON_parse net [] 3 = (Fetch [] :: trace, c))
  /\ (exists c, RevC.postToSubmitRoute JSON_parse net [] = ([Fetch []], c))
  /\ RevB.postToSubmitRoute JSON_parse alwaysDown [] 3
     = ([Fetch []; Wait 1000; Fetch []; Wait 2000; Fetch []],
        Throws (HttpError 500 (js "down")))
  /\ RevA.postToSubmitRoute JSON_parse net [] 3
     = ([], Throws (Error (js "No valid data to send to submit route"))).
Proof.
  split; [|split; [|done]].
  - unfold RevB.postToSubmitRoute. simpl seq. rewrite retryLoopB_cons.
    destruct (RevB.attemptOnce JSON_parse (net 1%nat)); [eauto|].
    simpl. destruct (RevB.attemptOnce JSON_parse (net 2%nat));
      destruct (RevB.attemptOnce JSON_parse (net 3%nat)); eauto.
  - unfold RevC.postToSubmitRoute.
    destruct (RevB.attemptOnce JSON_parse (net 1%nat)); eauto.
Qed.

(** ** Submission Client: simplifying the response *)

(** C8, against [RevB] and [RevC] (lines 426-430, 620-624): an element
    that carries an error is simplified to the defaults, its error is lost;
    [RevA] turns it into an error outcome. *)
Theorem simplifyPostResponses_item_error :
  RevB.simplifyPostResponses (JArr [erroredItem])
    = Ok [ {| item_status := JStr (js "unknown");
              item_message := JStr (js "No message provided") |} ]
  /\ RevC.simplifyPostResponses (JArr [erroredItem])
    = Ok [ {| item_status := JStr (js "unknown");
              item_message := JStr (js "No message provided") |} ]
  /\ RevA.simplifyPostResponses (JArr [erroredItem])
    = Ok [ {| item_status := JStr (js "error");
              item_message := JStr (js "boom") |} ].
Proof. done. Qed.

Lemma mapM_Forall2 {A B} (f : A -> result B) (l : list A) (out : list B) :
  mapM f l = Ok out -> Forall2 (fun x y => f x = Ok y) l out.
Proof.
  revert out. induction l as [|x l IH]; intros out; simpl.
  - intros [= <-]. constructor.
  - destruct (f x) as [y|] eqn:Ex; simpl; [|done].
    destruct (mapM f l) as [k|]; simpl; [|done].
    intros [= <-]. constructor; auto.
Qed.

(** X3. [RevA] (lines 194-221): each element of a non-empty [results] array is
    simplified on its own, in order. An element with a truthy [error] gives
    the status ["error"] and that error as message; otherwise the status and
    the message of its [postResponse] are kept when truthy and replaced by
    ["unknown"] and ["No message provided"] when missing or falsy. *)
Theorem simplifyPostResponses_A_items :
  (forall element elements out,
     RevA.simplifyPostResponses (JArr (element :: elements)) = Ok out ->
     Forall2 (fun e o => RevA.simplifyOne e = Ok o) (element :: elements) out)
  /\ (forall props e,
        assoc (js "error") props = Some e -> truthy e = true ->
        RevA.simplifyOne (JObj props)
        = Ok {| item_status := JStr (js "error"); item_message := e |})
  /\ (forall props inner,
        or_json (assoc (js "error") props) JNull = JNull ->
        assoc (js "postResponse") props = Some (JObj inner) ->
        RevA.simplifyOne (JObj props)
        = Ok {| item_status := or_json (assoc (js "status") inner) (JStr (js "unknown"));
                item_message :=
                  or_json (assoc (js "message") inner) (JStr (js "No message provided")) |})
  /\ (forall props,
        or_json (assoc (js "error") props) JNull = JNull ->
        assoc (js "postResponse") props = None ->
        RevA.simplifyOne (JObj props)
        = Ok {| item_status := JStr (js "unknown");
                item_message := JStr (js "No message provided") |}).
Proof.
  split; [|split; [|split]].
  - intros element elements out. apply mapM_Forall2.
  - intros props e He Ht. unfold RevA.simplifyOne. simpl.
    unfold mbind, result_bind. by rewrite He, Ht.
  - intros props inner He Hp. unfold RevA.simplifyOne. simpl.
    unfold mbind, result_bind. rewrite Hp. simpl.
    destruct (assoc (js "error") props) as [e|]; [|done].
    simpl in He. destruct (truthy e) eqn:Ht; [|done].
    subst e. done.
  - intros props He Hp. unfold RevA.simplifyOne. simpl.
    unfold mbind, result_bind. rewrite Hp. simpl.
    destruct (assoc (js "error") props) as [e|]; [|done].
    simpl in He. destruct (truthy e) eqn:Ht; [|done].
    subst e. done.
Qed.

Lemma submissionResultA_results jsonResponse r :
  RevA.submissionResult jsonResponse = Ok r ->
  exists field,
    getProp jsonResponse (js "results") = Ok field
    /\ RevA.simplifyPostResponses (or_json field (JArr [])) = Ok (results r).
Proof.
  unfold RevA.submissionResult, mbind, result_bind.
  destruct (getProp jsonResponse (js "status")); [|done].
  destruct (getProp jsonResponse (js "message")); [|done].
  destruct (getProp jsonResponse (js "execution_time")); [|done].
  destruct (getProp jsonResponse (js "results")) as [field|]; [|done].
  destruct (RevA.simplifyPostResponses _) as [simplified|] eqn:E; [|done].
  intros [= <-]. exists field. by rewrite E.
Qed.

Lemma simplifyPostResponsesA_nonempty v out :
  RevA.simplifyPostResponses v = Ok out -> out <> [].
Proof.
  destruct v as [| | | |[|element elements]|]; simpl;
    try (by intros [= <-]).
  unfold mbind, result_bind.
  destruct (RevA.simplifyOne element); [|done].
  destruct (mapM RevA.simplifyOne elements); [|done].
  by intros [= <-].
Qed.

Lemma attemptOnceA_ok JSON_parse rep r :
  RevA.attemptOnce JSON_parse rep = Ok r ->
  exists jsonResponse, RevA.submissionResult jsonResponse = Ok r.
Proof.
  destruct rep as [reason|ok code [text|e]]; simpl; try done.
  destruct ok; simpl; [|done].
  destruct (JSON_parse text) as [jsonResponse|]; [|done]. eauto.
Qed.

Lemma retryLoopA_returns JSON_parse net data retries attempts : forall trace r,
  RevA.retryLoop JSON_parse net data retries attempts = (trace, Returns r) ->
  exists a, a ∈ attempts /\ RevA.attemptOnce JSON_parse (net a) = Ok r.
Proof.
  induction attempts as [|a later IH]; intros trace r; [done|].
  rewrite retryLoopA_cons.
  destruct (RevA.attemptOnce JSON_parse (net a)) as [r'|e] eqn:Ea.
  - intros [= _ <-]. exists a. split; [by left|done].
  - destruct (a =? retries)%nat; [done|].
    destruct (RevA.retryLoop _ _ _ _ later) as [trace' c].
    intros [= _ ->]. destruct (IH _ _ eq_refl) as (b & Hb & Hok).
    exists b. split; [by right|done].
Qed.

(** C9. In [RevA] (lines 166-171, 194-199): when the [results] of the
    parsed response is absent, the empty array, or not an array, the
    [results] of the Submission Result is the single outcome
    [{status: "error", message: "No valid responses received"}]; and the
    [results] of every Submission Result the client returns is non-empty. *)
Theorem results_never_empty
    (JSON_parse : list N -> option json) (net : nat -> reply)
    (data : list ShipmentRecord) (retries : nat) :
  (forall jsonResponse field r,
     getProp jsonResponse (js "results") = Ok field ->
     (field = None \/ field = Some (JArr [])
      \/ exists v, field = Some v /\ forall items, v <> JArr items) ->
     RevA.submissionResult jsonResponse = Ok r ->
     results r = [noValidResponses])
  /\ (forall v, (forall element elements, v <> JArr (element :: elements)) ->
        RevA.simplifyPostResponses v = Ok [noValidResponses])
  /\ (forall trace r,
        RevA.postToSubmitRoute JSON_parse net data retries = (trace, Returns r) ->
        results r <> []).
Proof.
  assert (Hguard : forall v, (forall element elements, v <> JArr (element :: elements)) ->
            RevA.simplifyPostResponses v = Ok [noValidResponses]).
  { intros v Hv. destruct v as [| | | |[|element elements]|]; try done.
    by destruct (Hv element elements). }
  split; [|split; [done|]].
  - intros jsonResponse field r Hfield Hcase Hr.
    apply submissionResultA_results in Hr as (field' & Hfield' & Hs).
    rewrite Hfield in Hfield'. injection Hfield' as <-.
    rewrite Hguard in Hs; [by injection Hs as <-|].
    intros element elements.
    destruct Hcase as [->|[->|(v & -> & Hv)]]; [done|done|].
    simpl. destruct (truthy v); [apply Hv|done].
  - intros trace r. unfold RevA.postToSubmitRoute.
    destruct data as [|record others]; [done|].
    intros (a & _ & (jsonResponse & Hr)%attemptOnceA_ok)%retryLoopA_returns.
    apply submissionResultA_results in Hr as (field & _ & Hs).
    by apply simplifyPostResponsesA_nonempty in Hs.
Qed.

Lemma results_never_empty_witness :
  RevA.postToSubmitRoute parseEmptyObject bareSuccess [sampleRecord] 3
  = ([Fetch [sampleRecord]],
     Returns {| status := JStr (js "success");
                message := JStr (js "No message provided");
                execution_time := JStr (js "N/A");
                results := [noValidResponses] |})
  /\ [noValidResponses] <> [].
Proof.
  split; [done|].
  exact (proj2 (proj2 (results_never_empty parseEmptyObject bareSuccess
                         [sampleRecord] 3)) _ _ eq_refl).
Defined.

(** In [RevB] and [RevC] a response without [results] gives the empty list
    of outcomes. *)
Example submissionResult_B_no_results :
  RevB.submissionResult (JObj []) =
    Ok {| status := JStr (js "success");
          message := JStr (js "No message provided");
          execution_time := JStr (js "N/A");
          results := [] |}.
Proof. done. Qed.

(** ** CSV Normalizer *)

Lemma obj_get_elem k v (o : row) : obj_get k o = Some v -> (k, v) ∈ o.
Proof.
  induction o as [|[k' v'] o IH]; simpl; [done|].
  case_bool_decide as Hk.
  - intros [= ->]. subst k'. by left.
  - intros ?. right. auto.
Qed.

Lemma obj_get_NoDup k v (o : row) :
  NoDup (fst <$> o) -> (k, v) ∈ o -> obj_get k o = Some v.
Proof.
  induction o as [|[k' v'] o IH]; simpl; [by intros _ ?%elem_of_nil|].
  intros [Hk' Hnd]%NoDup_cons [[= -> ->]|Hin]%elem_of_cons.
  - by rewrite bool_decide_eq_true_2.
  - rewrite bool_decide_eq_false_2; [auto|].
    intros ->. apply Hk'. apply list_elem_of_fmap. by exists (k, v).
Qed.

Lemma obj_set_elem k v (o : row) k' v' :
  (k', v') ∈ obj_set k v o -> (k', v') = (k, v) \/ (k', v') ∈ o.
Proof.
  induction o as [|[k0 v0] o IH]; simpl.
  - intros ?%list_elem_of_singleton. by left.
  - case_bool_decide as Hk.
    + intros [[= -> ->]|?]%elem_of_cons; [left; by subst k0|].
      right. by right.
    + intros [->|Hin]%elem_of_cons; [right; by left|].
      destruct (IH Hin) as [?|?]; [by left|]. right. by right.
Qed.

Lemma obj_set_fresh k v (o : row) :
  k ∉ fst <$> o -> obj_set k v o = o ++ [(k, v)].
Proof.
  induction o as [|[k0 v0] o IH]; simpl; [done|].
  intros [Hk Ho]%not_elem_of_cons.
  rewrite bool_decide_eq_false_2 by done. by rewrite IH.
Qed.

Lemma obj_set_keys k v (o : row) k' :
  k' ∈ fst <$> obj_set k v o <-> k' = k \/ k' ∈ fst <$> o.
Proof.
  induction o as [|[k0 v0] o IH]; simpl.
  - rewrite list_elem_of_singleton, elem_of_nil. tauto.
  - case_bool_decide as Hk; simpl.
    + subst k0. rewrite !elem_of_cons. tauto.
    + rewrite !elem_of_cons, IH. tauto.
Qed.

Lemma obj_assign_elem k v (o : row) k' v' :
  (k', v') ∈ obj_assign k v o -> (k', v') = (k, v) \/ (k', v') ∈ o.
Proof.
  unfold obj_assign. case_bool_decide; [by right|apply obj_set_elem].
Qed.

Lemma obj_assign_keys k v (o : row) k' :
  k' ∈ fst <$> obj_assign k v o <->
  (k' = k /\ k <> js "__proto__") \/ k' ∈ fst <$> o.
Proof.
  unfold obj_assign. case_bool_decide; [tauto|].
  rewrite obj_set_keys. tauto.
Qed.

Lemma obj_assign_fresh k v (o : row) :
  k <> js "__proto__" -> k ∉ fst <$> o -> obj_assign k v o = o ++ [(k, v)].
Proof.
  intros Hk Hfresh. unfold obj_assign.
  rewrite bool_decide_eq_false_2 by done. by apply obj_set_fresh.
Qed.

Lemma obj_get_is_Some k (o : row) :
  k ∈ fst <$> o -> exists v, obj_get k o = Some v.
Proof.
  induction o as [|[k0 v0] o IH]; simpl; [by intros ?%elem_of_nil|].
  case_bool_decide as Hk; [eauto|].
  intros [->|?]%elem_of_cons; [done|auto].
Qed.

Lemma normalizeData_origin (data : row) k v :
  (k, v) ∈ normalizeData data ->
  exists key, k = normalizeKey key /\ (key, v) ∈ data.
Proof.
  unfold normalizeData.
  assert (H : forall keys (acc : row),
    (forall k v, (k, v) ∈ acc -> exists key, k = normalizeKey key /\ (key, v) ∈ data) ->
    (k, v) ∈ foldl (fun normalizedData key =>
                      match obj_get key data with
                      | Some v => obj_assign (normalizeKey key) v normalizedData
                      | None => normalizedData
                      end) acc keys ->
    exists key, k = normalizeKey key /\ (key, v) ∈ data).
  { induction keys as [|key keys IH]; intros acc Hacc; simpl; [apply Hacc|].
    apply IH. intros k' v'.
    destruct (obj_get key data) as [w|] eqn:Ew; [|apply Hacc].
    intros [[= -> ->]|?]%obj_assign_elem; [|by apply Hacc].
    exists key. split; [done|]. by apply obj_get_elem. }
  apply H. by intros ? ? ?%elem_of_nil.
Qed.

Lemma normalizeData_keys (data : row) k :
  k ∈ fst <$> normalizeData data <->
  exists key, key ∈ fst <$> data /\ k = normalizeKey key /\ k <> js "__proto__".
Proof.
  unfold normalizeData.
  assert (H : forall keys (acc : row),
    (forall key, key ∈ keys -> key ∈ fst <$> data) ->
    k ∈ fst <$> foldl (fun normalizedData key =>
                         match obj_get key data with
                         | Some v => obj_assign (normalizeKey key) v normalizedData
                         | None => normalizedData
                         end) acc keys
    <-> k ∈ fst <$> acc
        \/ exists key, key ∈ keys /\ k = normalizeKey key /\ k <> js "__proto__").
  { induction keys as [|key keys IH]; intros acc Hkeys; simpl.
    - split; [by left|]. intros [?|(key & ?%elem_of_nil & _)]; done.
    - rewrite IH by (intros key' ?; apply Hkeys; by right).
      destruct (obj_get_is_Some key data) as [v ->]; [apply Hkeys; by left|].
      rewrite obj_assign_keys. split.
      + intros [[[-> ?]|?]|(key' & ? & -> & ?)].
        * right. exists key. split; [by left|done].
        * by left.
        * right. exists key'. split; [by right|done].
      + intros [?|(key' & [->|?]%elem_of_cons & -> & ?)].
        * left. by right.
        * left. by left.
        * right. by exists key'. }
  rewrite H.
  - change (List.map fst data) with (fst <$> data).
    split; [intros [?%elem_of_nil|?]; done|by right].
  - intros key Hkey. exact Hkey.
Qed.

Lemma normalizeData_renames (data : row) :
  NoDup (fst <$> data) ->
  NoDup ((fun kv => normalizeKey kv.1) <$> data) ->
  (js "__proto__" ∉ (fun kv => normalizeKey kv.1) <$> data) ->
  normalizeData data = (fun kv => (normalizeKey kv.1, kv.2)) <$> data.
Proof.
  intros Hkeys Hnames Hproto. unfold normalizeData.
  assert (H : forall rest done,
    data = done ++ rest ->
    foldl (fun normalizedData key =>
             match obj_get key data with
             | Some v => obj_assign (normalizeKey key) v normalizedData
             | None => normalizedData
             end)
          ((fun kv => (normalizeKey kv.1, kv.2)) <$> done) (List.map fst rest)
    = (fun kv => (normalizeKey kv.1, kv.2)) <$> data).
  { induction rest as [|[key v] rest IH]; intros done Hdata; simpl.
    - by rewrite Hdata, app_nil_r.
    - rewrite (obj_get_NoDup key v data Hkeys)
        by (rewrite Hdata, elem_of_app; right; by left).
      rewrite obj_assign_fresh.
      + specialize (IH (done ++ [(key, v)])).
        rewrite fmap_app in IH. apply IH. by rewrite <- app_assoc.
      + intros Heq. apply Hproto. rewrite Hdata, fmap_app, elem_of_app.
        right. simpl. rewrite <- Heq. by left.
      + rewrite Hdata, fmap_app in Hnames.
        apply NoDup_app in Hnames as (_ & Hdisj & _).
        intros Hin. apply (Hdisj (normalizeKey key)).
        * rewrite <- list_fmap_compose in Hin. exact Hin.
        * simpl. by left. }
  apply (H data []). done.
Qed.

Lemma normalizeKey_lookup key i :
  normalizeKey key !! i =
    (fun c => if (c =? 45)%N || (c =? 32)%N then 95%N else c) <$> (key !! i).
Proof. apply map_lookup. Qed.

Lemma csvRows_lines skipLines buffer :
  csvRows skipLines buffer =
    (fun line => csvRecord (split 44 (default [] (lines buffer !! skipLines)))
                           (split 44 line))
      <$> drop (S skipLines) (lines buffer).
Proof.
  unfold csvRows.
  assert (drop (S skipLines) (lines buffer) = drop 1 (drop skipLines (lines buffer)))
    as -> by (rewrite drop_drop; f_equal; lia).
  destruct (drop skipLines (lines buffer)) as [|header data] eqn:E; [done|].
  simpl. rewrite drop_0.
  assert (lines buffer !! skipLines = Some header) as ->.
  { rewrite <- (Nat.add_0_r skipLines), <- lookup_drop, E. done. }
  simpl. clear E. induction data as [|line data IH]; simpl; [done|].
  by rewrite IH.
Qed.

Example sampleUpload_rows :
  parseCSVFromBuffer (fun _ => None) sampleUpload =
    Resolves
      [ [ (js "Cust_PO_Number", js "7890/2"); (js "Shipped_VIA", js "UPS - 3RD");
          (js "Customer_Number", js "RTFMS"); (js "Tracking_Number", js "1Z999") ] ].
Proof. by vm_compute. Qed.

Example sampleUpload_records :
  RevA.formatCannonHillData (List.map normalizeData (csvRows 4 sampleUpload)) =
    [ {| source_id := js "118741-7890"; tracking_number := Some (js "1Z999");
         carrier_code := js "UPS"; shipment_method := Str (js "3 Day Select") |} ]
  /\ RevB.formatCannonHillData (List.map normalizeData (csvRows 4 sampleUpload))
     = RevA.formatCannonHillData (List.map normalizeData (csvRows 4 sampleUpload)).
Proof. by vm_compute. Qed.

(** C6, against the assignment of line 72 (331, 540): the column
    ["--proto--"] should be rewritten to ["__proto__"] and keep its value;
    but [normalizedData["__proto__"] = value] on the plain object [{}] calls
    the inherited setter, which ignores a string, so the rewritten row has
    no such column and the value is lost; reading the name from the row
    gives the inherited member instead. *)
Theorem normalizeData_loses_proto_column :
  normalizeKey (js "--proto--") = js "__proto__"
  /\ (fun kv => (normalizeKey kv.1, kv.2)) <$> protoRow
     = [ (js "__proto__", js "x"); (js "Cust_PO_Number", js "7/1") ]
  /\ normalizeData protoRow = [ (js "Cust_PO_Number", js "7/1") ]
  /\ rowRead (js "__proto__") (normalizeData protoRow)
     = Some (Member (js "__proto__")).
Proof. by vm_compute. Qed.

Example protoUpload_rows :
  csvRows 4 protoUpload = [ protoRow ]
  /\ parseCSVFromBuffer (fun _ => None) protoUpload
     = Resolves [ [ (js "Cust_PO_Number", js "7/1") ] ].
Proof. by vm_compute. Qed.

(** X19. The ['data'] handler (lines 68-75) replaces every space and every
    hyphen of a column name by an underscore and changes nothing else in the
    name (["Cust PO-Number"] becomes ["Cust_PO_Number"]). The names of the
    rewritten row are the rewritten names of the parsed row other than
    [__proto__]; each of its values is a value the parsed row holds under a
    name rewritten to its name; and when the rewritten names are pairwise
    distinct and none is [__proto__], the rewritten row is the parsed row
    with the names rewritten, in the same order and with the same values.
    The promise resolves with the rewritten rows in the order of the parsed
    rows, or rejects with the parser's error. *)
Theorem normalizeData_rewrites (unreadable : list N -> option errorObject) :
  (forall key i,
     normalizeKey key !! i =
       (fun c => if (c =? 45)%N || (c =? 32)%N then 95%N else c) <$> (key !! i))
  /\ normalizeKey (js "Cust PO-Number") = js "Cust_PO_Number"
  /\ (forall data k,
        k ∈ fst <$> normalizeData data <->
        exists key, key ∈ fst <$> data /\ k = normalizeKey key
                    /\ k <> js "__proto__")
  /\ (forall data k v,
        (k, v) ∈ normalizeData data ->
        exists key, k = normalizeKey key /\ (key, v) ∈ data)
  /\ (forall data,
        NoDup (fst <$> data) ->
        NoDup ((fun kv => normalizeKey kv.1) <$> data) ->
        (js "__proto__" ∉ (fun kv => normalizeKey kv.1) <$> data) ->
        normalizeData data = (fun kv => (normalizeKey kv.1, kv.2)) <$> data)
  /\ (forall buffer error,
        unreadable buffer = Some error ->
        parseCSVFromBuffer unreadable buffer = Rejects error)
  /\ (forall buffer,
        unreadable buffer = None ->
        parseCSVFromBuffer unreadable buffer
        = Resolves (normalizeData <$> csvRows 4 buffer)).
Proof.
  split; [apply normalizeKey_lookup|]. split; [by vm_compute|].
  split; [apply normalizeData_keys|].
  split; [apply normalizeData_origin|]. split; [apply normalizeData_renames|].
  unfold parseCSVFromBuffer, csvParser. split.
  - by intros buffer error ->.
  - by intros buffer ->.
Qed.

Lemma normalizeData_rewrites_witness :
  normalizeData sampleParsedRow
  = (fun kv => (normalizeKey kv.1, kv.2)) <$> sampleParsedRow.
Proof.
  apply (proj1 (proj2 (proj2 (proj2 (proj2
           (normalizeData_rewrites (fun _ => None))))))).
  - apply (bool_decide_unpack _). by vm_compute.
  - apply (bool_decide_unpack _). by vm_compute.
  - apply (bool_decide_unpack _). by vm_compute.
Defined.

(** ** Further properties of the Row Transformer *)

Section FirstOccurrences.

Variable orderNumber : row -> option jsstring.

Lemma firstOccurrences_app l1 : forall earlier l2,
  firstOccurrences orderNumber earlier (l1 ++ l2) =
    firstOccurrences orderNumber earlier l1
    ++ firstOccurrences orderNumber (earlier ++ l1) l2.
Proof.
  induction l1 as [|r l1 IH]; intros earlier l2; simpl.
  - by rewrite app_nil_r.
  - rewrite IH, <- app_assoc. simpl.
    destruct (orderNumber r); [|done]. by case_bool_decide.
Qed.

Lemma firstOccurrences_absorbed l1 l2 :
  (forall item n, item ∈ l2 -> orderNumber item = Some n ->
     Some n ∈ orderNumber <$> l1) ->
  firstOccurrences orderNumber l1 l2 = [].
Proof.
  intros Hseen.
  destruct (firstOccurrences orderNumber l1 l2) as [|[item n] l] eqn:E; [done|].
  assert (Hin : (item, n) ∈ firstOccurrences orderNumber l1 l2)
    by (rewrite E; by left).
  apply firstOccurrences_elem in Hin as (Hitem & Hn & Hnot).
  destruct Hnot. eauto.
Qed.

Lemma firstOccurrences_keys rows : forall earlier n,
  n ∈ snd <$> firstOccurrences orderNumber earlier rows <->
  (Some n ∉ orderNumber <$> earlier) /\ Some n ∈ orderNumber <$> rows.
Proof.
  induction rows as [|r rest IH]; intros earlier n; simpl.
  - rewrite !elem_of_nil. tauto.
  - assert (Hsnoc : Some n ∈ orderNumber <$> (earlier ++ [r]) <->
                    Some n ∈ orderNumber <$> earlier \/ Some n = orderNumber r).
    { rewrite fmap_app, elem_of_app. simpl. by rewrite list_elem_of_singleton. }
    rewrite elem_of_cons.
    destruct (orderNumber r) as [m|] eqn:Em.
    + case_bool_decide as Hm; simpl.
      * rewrite IH, Hsnoc. split.
        -- intros [Hnot Hin]. split; [tauto|by right].
        -- intros [Hnot [Heq|Hin]]; [by simplify_eq|].
           split; [|done]. intros [?|?]; [done|by simplify_eq].
      * rewrite elem_of_cons, IH, Hsnoc. split.
        -- intros [->|[Hnot Hin]]; [split; [done|by left]|].
           split; [tauto|by right].
        -- intros [Hnot [[= ->]|Hin]]; [by left|].
           destruct (decide (n = m)) as [->|Hne]; [by left|].
           right. split; [|done]. intros [?|[= ?]]; done.
    + rewrite IH, Hsnoc. split.
      * intros [Hnot Hin]. split; [tauto|by right].
      * intros [Hnot [?|Hin]]; [done|].
        split; [|done]. intros [?|?]; done.
Qed.

Lemma firstOccurrences_length rows :
  length (firstOccurrences orderNumber [] rows)
  = size (list_to_set (omap orderNumber rows) : gset (list N)).
Proof.
  rewrite <- (length_fmap snd).
  rewrite <- (size_list_to_set (C := gset (list N)))
    by apply firstOccurrences_NoDup.
  f_equal. apply set_eq. intros n.
  rewrite !elem_of_list_to_set, firstOccurrences_keys, list_elem_of_omap.
  split.
  - intros [_ (item & ? & ?)%list_elem_of_fmap]. eauto.
  - intros (item & ? & ?). split; [by intros ?%elem_of_nil|].
    apply list_elem_of_fmap. eauto.
Qed.

Lemma firstOccurrences_length_le rows : forall earlier,
  (length (firstOccurrences orderNumber earlier rows) <= length rows)%nat.
Proof.
  induction rows as [|r rest IH]; intros earlier; simpl; [done|].
  specialize (IH (earlier ++ [r])).
  destruct (orderNumber r); [case_bool_decide|]; simpl; lia.
Qed.

End FirstOccurrences.

Lemma firstOccurrences_ext (f g : row -> option jsstring) rows : forall earlier,
  (forall item, item ∈ earlier ++ rows -> f item = g item) ->
  firstOccurrences f earlier rows = firstOccurrences g earlier rows.
Proof.
  induction rows as [|r rest IH]; intros earlier Hfg; simpl; [done|].
  rewrite <- (Hfg r) by (rewrite elem_of_app; right; by left).
  assert (f <$> earlier = g <$> earlier) as <-.
  { apply Forall_fmap_ext_1, Forall_forall. intros item Hitem.
    apply Hfg. rewrite elem_of_app. by left. }
  rewrite (IH (earlier ++ [r])); [done|].
  intros item Hitem. apply Hfg. by rewrite <- app_assoc in Hitem.
Qed.

Lemma orderNumber_no_po item :
  obj_get (js "Cust_PO_Number") item = None
  \/ obj_get (js "Cust_PO_Number") item = Some [] ->
  orderNumberA item = None /\ orderNumberB item = None.
Proof. unfold orderNumberA, orderNumberB. by intros [-> | ->]. Qed.

(** X4. In every revision a row whose [Cust_PO_Number] is absent or empty
    contributes nothing (lines 92, 351, 560): the output is the same with
    and without it, wherever it stands in the input. *)
Theorem formatCannonHillData_skips_rows_without_po
    (before after : list row) (item : row) :
  obj_get (js "Cust_PO_Number") item = None
  \/ obj_get (js "Cust_PO_Number") item = Some [] ->
  RevA.formatCannonHillData (before ++ item :: after)
    = RevA.formatCannonHillData (before ++ after)
  /\ RevB.formatCannonHillData (before ++ item :: after)
    = RevB.formatCannonHillData (before ++ after).
Proof.
  intros [HA HB]%orderNumber_no_po.
  unfold RevA.formatCannonHillData, RevB.formatCannonHillData.
  rewrite !foldl_app. simpl.
  destruct (foldl RevA.reducer ([], ∅) before) as [dataA seenA].
  destruct (foldl RevB.reducer ([], ∅) before) as [dataB seenB].
  by rewrite reducerA_eq, reducerB_eq, HA, HB.
Qed.

Lemma formatCannonHillData_skips_rows_without_po_witness :
  RevA.formatCannonHillData ([sampleRow] ++ [] :: [mixedRow])
    = RevA.formatCannonHillData ([sampleRow] ++ [mixedRow])
  /\ RevB.formatCannonHillData ([sampleRow] ++ [] :: [mixedRow])
    = RevB.formatCannonHillData ([sampleRow] ++ [mixedRow]).
Proof.
  apply (formatCannonHillData_skips_rows_without_po [sampleRow] [mixedRow] []).
  left. reflexivity.
Defined.

(** X5. In every revision the number of records emitted is the number of
    distinct order numbers the rows yield, and so at most the number of
    rows. *)
Theorem formatCannonHillData_length (rows : list row) :
  length (RevA.formatCannonHillData rows)
    = size (list_to_set (omap orderNumberA rows) : gset (list N))
  /\ length (RevB.formatCannonHillData rows)
    = size (list_to_set (omap orderNumberB rows) : gset (list N))
  /\ (length (RevA.formatCannonHillData rows) <= length rows)%nat
  /\ (length (RevB.formatCannonHillData rows) <= length rows)%nat.
Proof.
  rewrite formatA_firstOccurrences, formatB_firstOccurrences, !length_fmap.
  rewrite !firstOccurrences_length.
  split; [done|]. split; [done|].
  rewrite <- !firstOccurrences_length.
  split; apply firstOccurrences_length_le.
Qed.

(** X6. In every revision the output for an input that is extended is the
    output for the input, extended: records once emitted are neither changed
    nor reordered by later rows. Rows whose order numbers all occur before
    add nothing; in particular the same rows uploaded twice in one file give
    the output of one copy. *)
Theorem formatCannonHillData_extends (rows more : list row) :
  (RevA.formatCannonHillData rows `prefix_of` RevA.formatCannonHillData (rows ++ more)
   /\ ((forall item n, item ∈ more -> orderNumberA item = Some n ->
          exists item', item' ∈ rows /\ orderNumberA item' = Some n) ->
       RevA.formatCannonHillData (rows ++ more) = RevA.formatCannonHillData rows)
   /\ RevA.formatCannonHillData (rows ++ rows) = RevA.formatCannonHillData rows)
  /\
  (RevB.formatCannonHillData rows `prefix_of` RevB.formatCannonHillData (rows ++ more)
   /\ ((forall item n, item ∈ more -> orderNumberB item = Some n ->
          exists item', item' ∈ rows /\ orderNumberB item' = Some n) ->
       RevB.formatCannonHillData (rows ++ more) = RevB.formatCannonHillData rows)
   /\ RevB.formatCannonHillData (rows ++ rows) = RevB.formatCannonHillData rows).
Proof.
  assert (Habs : forall (f : row -> option jsstring) l1 l2,
    (forall item n, item ∈ l2 -> f item = Some n ->
       exists item', item' ∈ l1 /\ f item' = Some n) ->
    firstOccurrences f [] (l1 ++ l2) = firstOccurrences f [] l1).
  { intros f l1 l2 H. rewrite firstOccurrences_app. simpl.
    rewrite (firstOccurrences_absorbed f l1 l2); [apply app_nil_r|].
    intros item n Hitem Hn. destruct (H item n Hitem Hn) as (item' & ? & ?).
    apply list_elem_of_fmap. eauto. }
  rewrite !formatA_firstOccurrences, !formatB_firstOccurrences.
  split; (split; [|split]).
  - rewrite firstOccurrences_app, fmap_app. by eexists.
  - intros H. by rewrite Habs.
  - rewrite Habs; [done|]. eauto.
  - rewrite firstOccurrences_app, fmap_app. by eexists.
  - intros H. by rewrite Habs.
  - rewrite Habs; [done|]. eauto.
Qed.

Lemma formatCannonHillData_extends_witness :
  RevA.formatCannonHillData ([sampleRow; mixedRow] ++ [sampleRow; mixedRow])
  = RevA.formatCannonHillData [sampleRow; mixedRow].
Proof.
  destruct (formatCannonHillData_extends [sampleRow; mixedRow] [])
    as [(_ & _ & H) _].
  exact H.
Defined.

Lemma digit_not_separator c : is_digit c = true -> is_separator c = false.
Proof.
  intros Hc. unfold is_separator. rewrite (digit_not_whitespace _ Hc).
  unfold is_digit in Hc. rewrite andb_true_iff, !N.leb_le in Hc.
  rewrite !orb_false_iff. repeat split; try done; apply N.eqb_neq; lia.
Qed.

Lemma takeWhile_rest p (s : jsstring) :
  exists rest, s = takeWhile p s ++ rest
               /\ (rest = [] \/ exists c r, rest = c :: r /\ p c = false).
Proof.
  induction s as [|c s (rest & IH & Hrest)]; simpl.
  - exists []. split; [done|by left].
  - destruct (p c) eqn:Hc.
    + exists rest. split; [simpl; by rewrite <- IH|done].
    + exists (c :: s). split; [done|]. right. eauto.
Qed.

Lemma split_runs_digits_first ds rest :
  forallb is_digit ds = true ->
  (rest = [] \/ exists r, rest = 47%N :: r) ->
  exists pieces, split_runs false (ds ++ rest) = ds :: pieces.
Proof.
  intros Hds Hrest. induction ds as [|d ds IH]; simpl in *.
  - destruct Hrest as [->|(r & ->)]; simpl; eauto.
  - apply andb_true_iff in Hds as [Hd Hds].
    rewrite (digit_not_separator _ Hd).
    destruct (IH Hds) as [pieces ->]. eauto.
Qed.

Lemma digitsFirst_orderNumber item po :
  obj_get (js "Cust_PO_Number") item = Some po ->
  digitsFirst po = true ->
  orderNumberA item = Some (takeWhile (fun c => negb (c =? 47)%N) po)
  /\ orderNumberB item = Some (takeWhile (fun c => negb (c =? 47)%N) po).
Proof.
  intros Hpo Hfirst. unfold digitsFirst in Hfirst.
  destruct (proj1 (all_digits_spec _) Hfirst) as [Hne Hds].
  destruct (takeWhile_rest (fun c => negb (c =? 47)%N) po) as (rest & Heq & Hrest).
  assert (Htruthy : truthy_str po = true).
  { unfold truthy_str. rewrite bool_decide_eq_false_2; [done|].
    intros ->. by apply Hne. }
  assert (Hds_truthy : truthy_str (takeWhile (fun c => negb (c =? 47)%N) po) = true).
  { unfold truthy_str. by rewrite bool_decide_eq_false_2. }
  split.
  - unfold orderNumberA. rewrite Hpo, Htruthy, sanitizedValueA_find.
    destruct (split_runs_digits_first _ rest Hds) as [pieces Hpieces].
    { destruct Hrest as [->|(c & r & -> & Hc)]; [by left|right].
      apply negb_false_iff, N.eqb_eq in Hc. subst c. eauto. }
    rewrite <- Heq in Hpieces. rewrite Hpieces. simpl.
    by rewrite Hfirst, Hds_truthy.
  - unfold orderNumberB. rewrite Hpo, Htruthy. simpl.
    rewrite sanitizedValueB_slashDigits. unfold slashDigits.
    assert (List.filter is_digit (takeWhile (fun c => negb (c =? 47)%N) po)
            = takeWhile (fun c => negb (c =? 47)%N) po) as ->.
    { clear -Hds. induction (takeWhile _ po) as [|c l IH]; simpl in *; [done|].
      apply andb_true_iff in Hds as [-> Hds]. by rewrite IH. }
    by rewrite Hds_truthy.
Qed.

(** X7. [RevA] and [RevB] build the same record from a row and an order
    number (lines 100-113 and 355-365), and they read the same order number,
    the digits before the first ['/'], from every [Cust_PO_Number] in which
    what precedes the first ['/'] is a non-empty string of digits. So on an
    upload all of whose non-empty [Cust_PO_Number] fields have that shape the
    two transformers give the same output. *)
Theorem formatCannonHillData_revisions_agree (rows : list row) :
  (forall item po,
     item ∈ rows -> obj_get (js "Cust_PO_Number") item = Some po ->
     po <> [] -> digitsFirst po = true) ->
  (forall item n, RevA.shipmentRecord item n = RevB.shipmentRecord item n)
  /\ (forall item, item ∈ rows -> orderNumberA item = orderNumberB item)
  /\ RevA.formatCannonHillData rows = RevB.formatCannonHillData rows.
Proof.
  intros Hshape.
  assert (Hrec : forall item n,
            RevA.shipmentRecord item n = RevB.shipmentRecord item n).
  { intros item n. by rewrite recordA_fields, recordB_fields. }
  assert (Hnum : forall item, item ∈ rows -> orderNumberA item = orderNumberB item).
  { intros item Hitem.
    destruct (obj_get (js "Cust_PO_Number") item) as [po|] eqn:Hpo.
    - destruct (decide (po = [])) as [->|Hne].
      + destruct (orderNumber_no_po item (or_intror Hpo)) as [-> ->]. done.
      + destruct (digitsFirst_orderNumber item po Hpo (Hshape _ _ Hitem Hpo Hne))
          as [-> ->]. done.
    - destruct (orderNumber_no_po item (or_introl Hpo)) as [-> ->]. done. }
  split; [done|]. split; [done|].
  rewrite formatA_firstOccurrences, formatB_firstOccurrences.
  rewrite (firstOccurrences_ext orderNumberA orderNumberB rows []) by done.
  apply Forall_fmap_ext_1, Forall_forall. intros [item n] _. apply Hrec.
Qed.

Lemma formatCannonHillData_revisions_agree_witness :
  RevA.formatCannonHillData [sampleRow; []] = RevB.formatCannonHillData [sampleRow; []].
Proof.
  apply (formatCannonHillData_revisions_agree [sampleRow; []]).
  intros item po Hitem.
  apply list_elem_of_In in Hitem.
  destruct Hitem as [<-|[<-|[]]].
  - intros [= <-] _. reflexivity.
  - intros [=].
Defined.

(** ** Trimming *)

Lemma trimStart_idemp s : trimStart (trimStart s) = trimStart s.
Proof.
  induction s as [|c s IH]; simpl; [done|].
  destruct (is_whitespace c) eqn:Hc; [done|]. simpl. by rewrite Hc.
Qed.

Lemma trimStart_suffix s : exists p, s = p ++ trimStart s.
Proof.
  induction s as [|c s [p IH]]; simpl; [by exists []|].
  destruct (is_whitespace c).
  - exists (c :: p). simpl. by rewrite <- IH.
  - by exists [].
Qed.

Lemma trimStart_head s c t : trimStart s = c :: t -> is_whitespace c = false.
Proof.
  induction s as [|d s IH]; simpl; [done|].
  destruct (is_whitespace d) eqn:Hd; [done|]. by intros [= <- _].
Qed.

Lemma trimStart_fixed s :
  (forall c t, s = c :: t -> is_whitespace c = false) -> trimStart s = s.
Proof.
  destruct s as [|c t]; simpl; [done|]. intros H. by rewrite (H c t).
Qed.

Lemma trim_clean s :
  trimStart (trim s) = trim s /\ trimStart (rev (trim s)) = rev (trim s).
Proof.
  unfold trim, trimEnd.
  set (u := trimStart s). set (w := trimStart (rev u)).
  split; [|by rewrite rev_involutive; apply trimStart_idemp].
  apply trimStart_fixed. intros c t Hw.
  destruct (trimStart_suffix (rev u)) as [p Hp]. fold w in Hp.
  assert (Hu : u = rev w ++ rev p).
  { rewrite <- (rev_involutive u), Hp. by rewrite rev_app_distr. }
  rewrite Hw in Hu. simpl in Hu.
  apply (trimStart_head s c (t ++ rev p)). by fold u.
Qed.

Lemma trim_idemp s : trim (trim s) = trim s.
Proof.
  destruct (trim_clean s) as [H1 H2].
  unfold trim at 1. unfold trimEnd. rewrite H1, H2. apply rev_involutive.
Qed.

Lemma trimStart_elem c s : c ∈ trimStart s -> c ∈ s.
Proof.
  destruct (trimStart_suffix s) as [p Hp]. intros Hc.
  rewrite Hp, elem_of_app. by right.
Qed.

Lemma elem_of_rev (c : N) l : c ∈ rev l <-> c ∈ l.
Proof. rewrite !list_elem_of_In. symmetry. apply in_rev. Qed.

Lemma trim_elem c s : c ∈ trim s -> c ∈ s.
Proof.
  unfold trim, trimEnd. rewrite elem_of_rev.
  intros Hc%trimStart_elem. apply trimStart_elem. by apply elem_of_rev.
Qed.

Lemma split_pieces_free sep s p : p ∈ split sep s -> sep ∉ p.
Proof.
  revert p. induction s as [|c s IH]; intros p; simpl.
  - intros ->%list_elem_of_singleton. apply not_elem_of_nil.
  - destruct (c =? sep)%N eqn:Hc.
    + intros [->|?]%elem_of_cons; [apply not_elem_of_nil|auto].
    + destruct (split sep s) as [|q qs].
      * intros ->%list_elem_of_singleton.
        apply N.eqb_neq in Hc. by intros [->|?%elem_of_nil]%elem_of_cons.
      * intros [->|?]%elem_of_cons.
        -- apply N.eqb_neq in Hc. intros [->|?]%elem_of_cons; [done|].
           by apply (IH q); [left|].
        -- apply IH. by right.
Qed.

Lemma viaSegment_clean i item :
  trim (viaSegment i item) = viaSegment i item /\ 45%N ∉ viaSegment i item.
Proof.
  unfold viaSegment.
  destruct (split 45 _ !! i) as [part|] eqn:E; [|split; [done|apply not_elem_of_nil]].
  split; [apply trim_idemp|].
  intros Hc%trim_elem. apply list_elem_of_lookup_2 in E.
  by apply (split_pieces_free _ _ _ E).
Qed.

Lemma methodName_clean code :
  trim code = code -> 45%N ∉ code ->
  methodName code <> [] /\ trim (methodName code) = methodName code
  /\ 45%N ∉ methodName code.
Proof.
  intros Htrim Hfree. unfold methodName.
  repeat (case_bool_decide;
          [split; [done|split; [by vm_compute|]];
           intros H'%list_elem_of_In; vm_compute in H'; intuition discriminate|]).
  done.
Qed.

Lemma methodValue_clean code :
  trim code = code -> 45%N ∉ code ->
  truthy_value (methodValue code) = true
  /\ (forall s, methodValue code = Str s -> s <> [] /\ trim s = s /\ 45%N ∉ s)
  /\ (forall name, methodValue code = Member name -> inherited name = true).
Proof.
  intros Htrim Hfree. unfold methodValue.
  destruct (inherited code) eqn:Hcode; simpl.
  - split; [done|]. split; [done|]. by intros name [= <-].
  - destruct (methodName_clean code Htrim Hfree) as (Hne & ? & ?).
    split; [|split; [by intros s [= <-]|done]].
    unfold truthy_str. by rewrite bool_decide_eq_false_2.
Qed.

(** X8. Every record emitted by any revision comes from an input row: it
    carries that row's [Tracking_Number] as it is (absent when the row has
    none), its [carrier_code] is the first segment of that row's
    [Shipped_VIA] and its [shipment_method] the value the table lookup of
    lines 105-106 (359-360, 568-569) gives for the second segment. The
    [carrier_code] has no surrounding whitespace and no ['-']. The
    [shipment_method] is always truthy: it is either a string, which is then
    not empty, has no surrounding whitespace and no ['-'], or a member the
    table inherits from [Object.prototype]. *)
Theorem emitted_record_fields_clean (rows : list row) (r : ShipmentRecord) :
  r ∈ RevA.formatCannonHillData rows \/ r ∈ RevB.formatCannonHillData rows ->
  (exists item, item ∈ rows
                /\ tracking_number r = obj_get (js "Tracking_Number") item
                /\ carrier_code r = viaSegment 0 item
                /\ shipment_method r = methodValue (viaSegment 1 item))
  /\ trim (carrier_code r) = carrier_code r
  /\ (45%N ∉ carrier_code r)
  /\ truthy_value (shipment_method r) = true
  /\ (forall s, shipment_method r = Str s ->
                s <> [] /\ trim s = s /\ 45%N ∉ s)
  /\ (forall name, shipment_method r = Member name -> inherited name = true).
Proof.
  intros (item & n & Hrow & _ & ->)%emitted_fields. simpl.
  destruct (viaSegment_clean 0 item) as [Hc1 Hc2].
  destruct (viaSegment_clean 1 item) as [Hm1 Hm2].
  destruct (methodValue_clean _ Hm1 Hm2) as (? & ? & ?).
  split; [by exists item|done].
Qed.

Lemma emitted_record_fields_clean_witness :
  truthy_value (shipment_method sampleRecord) = true
  /\ trim (carrier_code sampleRecord) = carrier_code sampleRecord.
Proof.
  destruct (emitted_record_fields_clean [sampleRow] sampleRecord
              sampleRecord_emitted) as (_ & H1 & _ & H2 & _).
  exact (conj H2 H1).
Defined.

(** ** Further properties of the CSV Normalizer *)

Lemma normalizeKey_free key :
  (32%N ∉ normalizeKey key) /\ (45%N ∉ normalizeKey key).
Proof.
  unfold normalizeKey. induction key as [|c key [IH1 IH2]]; simpl.
  - split; apply not_elem_of_nil.
  - rewrite !not_elem_of_cons. split; (split; [|done]).
    + destruct (c =? 45)%N eqn:E1; simpl; [done|].
      destruct (c =? 32)%N eqn:E2; [done|]. apply N.eqb_neq in E2. congruence.
    + destruct (c =? 45)%N eqn:E1; simpl; [done|].
      destruct (c =? 32)%N eqn:E2; [done|]. apply N.eqb_neq in E1. congruence.
Qed.

Lemma normalizeKey_fixed key :
  32%N ∉ key -> 45%N ∉ key -> normalizeKey key = key.
Proof.
  unfold normalizeKey. induction key as [|c key IH]; simpl; [done|].
  rewrite !not_elem_of_cons. intros [H1 ?] [H2 ?].
  rewrite IH by done.
  rewrite (proj2 (N.eqb_neq c 45)), (proj2 (N.eqb_neq c 32)) by congruence.
  done.
Qed.

Lemma obj_set_NoDup k v (o : row) :
  NoDup (fst <$> o) -> NoDup (fst <$> obj_set k v o).
Proof.
  induction o as [|[k0 v0] o IH]; simpl.
  - intros _. apply NoDup_singleton.
  - intros [Hk0 Hnd]%NoDup_cons. case_bool_decide as Hk; simpl.
    + by apply NoDup_cons.
    + apply NoDup_cons. split; [|auto].
      rewrite obj_set_keys. intros [->|?]; done.
Qed.

Lemma obj_get_set k k' v (o : row) :
  obj_get k (obj_set k' v o) = if bool_decide (k' = k) then Some v else obj_get k o.
Proof.
  induction o as [|[k0 v0] o IH]; simpl.
  - by case_bool_decide.
  - destruct (decide (k0 = k')) as [->|Hne].
    + rewrite (bool_decide_eq_true_2 (k' = k')) by done. simpl.
      by case_bool_decide.
    + rewrite (bool_decide_eq_false_2 (k0 = k')) by done. simpl. rewrite IH.
      repeat case_bool_decide; congruence.
Qed.

Lemma obj_assign_NoDup k v (o : row) :
  NoDup (fst <$> o) -> NoDup (fst <$> obj_assign k v o).
Proof.
  unfold obj_assign. case_bool_decide; [done|apply obj_set_NoDup].
Qed.

Lemma obj_get_assign k k' v (o : row) :
  obj_get k (obj_assign k' v o)
  = if bool_decide (k' = js "__proto__") then obj_get k o
    else if bool_decide (k' = k) then Some v else obj_get k o.
Proof.
  unfold obj_assign. case_bool_decide; [done|apply obj_get_set].
Qed.

Lemma normalizeData_NoDup data : NoDup (fst <$> normalizeData data).
Proof.
  unfold normalizeData.
  assert (H : forall keys (acc : row), NoDup (fst <$> acc) ->
    NoDup (fst <$> foldl (fun normalizedData key =>
                            match obj_get key data with
                            | Some v => obj_assign (normalizeKey key) v normalizedData
                            | None => normalizedData
                            end) acc keys)).
  { induction keys as [|key keys IH]; intros acc Hacc; simpl; [done|].
    apply IH. destruct (obj_get key data); [by apply obj_assign_NoDup|done]. }
  apply H. constructor.
Qed.

Lemma lastWritten_snoc k (done : row) key v :
  lastWritten k (done ++ [(key, v)])
  = if bool_decide (normalizeKey key = k) then Some v else lastWritten k done.
Proof.
  unfold lastWritten. rewrite List.filter_app. simpl.
  case_bool_decide; simpl; [by rewrite last_snoc|by rewrite app_nil_r].
Qed.

Lemma collidingRow_NoDup : NoDup (fst <$> collidingRow).
Proof. apply (bool_decide_unpack _). by vm_compute. Defined.

Lemma normalizeData_lookup data k :
  NoDup (fst <$> data) -> obj_get k (normalizeData data) = lastWrittenOwn k data.
Proof.
  intros Hkeys. unfold normalizeData.
  assert (H : forall rest done (acc : row),
    data = done ++ rest ->
    (forall k, obj_get k acc = lastWrittenOwn k done) ->
    obj_get k (foldl (fun normalizedData key =>
                        match obj_get key data with
                        | Some v => obj_assign (normalizeKey key) v normalizedData
                        | None => normalizedData
                        end) acc (List.map fst rest))
    = lastWrittenOwn k data).
  { induction rest as [|[key v] rest IH]; intros done acc Hdata Hacc; simpl.
    - rewrite Hdata, app_nil_r. apply Hacc.
    - rewrite (obj_get_NoDup key v data Hkeys)
        by (rewrite Hdata, elem_of_app; right; by left).
      apply (IH (done ++ [(key, v)])); [by rewrite <- app_assoc|].
      intros k'. rewrite obj_get_assign, Hacc. unfold lastWrittenOwn.
      rewrite lastWritten_snoc. repeat case_bool_decide; congruence. }
  apply (H data [] []); [done|]. intros k'. unfold lastWrittenOwn.
  by case_bool_decide.
Qed.

(** X9. Whatever the upload, every row the Normalizer resolves with is a
    well-formed object: its column names are pairwise distinct, none of them
    contains a space or a hyphen, and rewriting a name again changes
    nothing. *)
Theorem parseCSVFromBuffer_names (unreadable : list N -> option errorObject)
    (buffer : jsstring) (rows : list row) (data : row) :
  parseCSVFromBuffer unreadable buffer = Resolves rows ->
  data ∈ rows ->
  NoDup (fst <$> data)
  /\ forall k, k ∈ fst <$> data ->
       (32%N ∉ k) /\ (45%N ∉ k) /\ normalizeKey k = k.
Proof.
  unfold parseCSVFromBuffer, csvParser.
  destruct (unreadable buffer); [done|]. intros [= <-].
  rewrite list_elem_of_In, in_map_iff.
  intros (parsed & <- & _). split; [apply normalizeData_NoDup|].
  intros k (key & _ & -> & _)%normalizeData_keys.
  destruct (normalizeKey_free key) as [H1 H2].
  split; [done|]. split; [done|]. by apply normalizeKey_fixed.
Qed.

Lemma parseCSVFromBuffer_names_witness :
  NoDup (fst <$> normalizeData (csvRecord
           (split 44 (js "Cust PO-Number,Shipped VIA,Customer Number,Tracking Number"))
           (split 44 (js "7890/2,UPS - 3RD,RTFMS,1Z999")))).
Proof.
  refine (proj1 (parseCSVFromBuffer_names (fun _ => None) sampleUpload _ _ _ _)).
  - reflexivity.
  - vm_compute. constructor.
Defined.

(** X10. When several column names of a parsed row are rewritten to the same
    name, the rewritten row holds under that name the value of the last of
    them (lines 70-73). The rewritten row has as own property under a name
    other than [__proto__] the value of the last column of the parsed row
    whose rewritten name it is, and none when there is no such column; it
    never has an own property [__proto__], whatever the columns. Reading a
    name from the rewritten row gives that own property when there is one,
    else the member a plain object inherits under that name, else
    [undefined]. *)
Theorem normalizeData_last_write_wins (data : row) (k : jsstring) :
  NoDup (fst <$> data) ->
  obj_get k (normalizeData data) = lastWrittenOwn k data
  /\ (k <> js "__proto__" ->
      obj_get k (normalizeData data) = lastWritten k data)
  /\ obj_get (js "__proto__") (normalizeData data) = None
  /\ rowRead k (normalizeData data)
     = match lastWrittenOwn k data with
       | Some v => Some (Str v)
       | None => if inherited k then Some (Member k) else None
       end.
Proof.
  intros Hkeys. split; [by apply normalizeData_lookup|]. split; [|split].
  - intros Hk. rewrite normalizeData_lookup by done. unfold lastWrittenOwn.
    by rewrite bool_decide_eq_false_2.
  - by rewrite normalizeData_lookup.
  - unfold rowRead. by rewrite normalizeData_lookup.
Qed.

Lemma normalizeData_last_write_wins_witness :
  obj_get (js "Cust_PO_Number") (normalizeData collidingRow) = Some (js "2/1").
Proof.
  rewrite (proj1 (normalizeData_last_write_wins collidingRow
                    (js "Cust_PO_Number") collidingRow_NoDup)).
  reflexivity.
Defined.

(** ** Further properties of the Submission Client *)

Lemma retryTrace_requests data first attempts :
  requests (retryTrace data first attempts) = attempts.
Proof. apply retryTrace_fetches. Qed.

Lemma retryTrace_totalWait data k : forall first,
  (2 * totalWait (retryTrace data first k)
   = 1000 * (k - 1) * (2 * first + k - 2))%nat.
Proof.
  unfold totalWait.
  induction k as [|[|k] IH]; intros first; [done| |].
  { change (2 * 0 = 1000 * 0 * (2 * first + 1 - 2))%nat.
    by rewrite Nat.mul_0_r. }
  specialize (IH (S first)).
  change (retryTrace data first (S (S k)))
    with (Fetch data :: Wait (first * 1000) :: retryTrace data (S first) (S k)).
  set (t := retryTrace data (S first) (S k)) in *.
  rewrite !fmap_cons. simpl sum_list. simpl waitOf. nia.
Qed.

Lemma retryTrace_events data e k : forall first,
  e ∈ retryTrace data first k ->
  e = Fetch data
  \/ exists a, (first <= a)%nat /\ (a + 1 < first + k)%nat /\ e = Wait (a * 1000).
Proof.
  induction k as [|[|k] IH]; intros first.
  - by intros ?%elem_of_nil.
  - intros ->%list_elem_of_singleton. by left.
  - change (retryTrace data first (S (S k)))
      with (Fetch data :: Wait (first * 1000) :: retryTrace data (S first) (S k)).
    intros [->|[->|He]%elem_of_cons]%elem_of_cons.
    + by left.
    + right. exists first. split; [lia|]. split; [lia|done].
    + destruct (IH _ He) as [->|(a & ? & ? & ->)]; [by left|].
      right. exists a. split; [lia|]. split; [lia|done].
Qed.

Section RetryShape.

Variable attempt : nat -> result SubmissionResult.
Variable data : list ShipmentRecord.
Variable retries : nat.
Variable loop : list nat -> list event * completion.

Hypothesis loop_nil : loop [] = ([], ReturnsUndefined).
Hypothesis loop_cons : forall a later,
  loop (a :: later) =
    match attempt a with
    | Ok r => ([Fetch data], Returns r)
    | Throw e =>
        if (a =? retries)%nat then ([Fetch data], Throws e)
        else let '(trace, c) := loop later in
             (Fetch data :: Wait (a * 1000) :: trace, c)
    end.

Lemma loop_shape len : forall start,
  (start + len = S retries)%nat ->
  exists k,
    (k <= len)%nat /\ (1 <= len -> 1 <= k)%nat
    /\ (loop (seq start len)).1 = retryTrace data start k
    /\ ((loop (seq start len)).2 = ReturnsUndefined <-> len = 0%nat)
    /\ (forall e, (loop (seq start len)).2 = Throws e ->
          k = len /\ attempt retries = Throw e)
    /\ (forall r, (loop (seq start len)).2 = Returns r ->
          attempt (start + k - 1)%nat = Ok r).
Proof.
  induction len as [|len IH]; intros start Hsum.
  - exists 0%nat. simpl. rewrite loop_nil. simpl.
    split; [done|]. split; [lia|]. split; [done|]. split; [done|]. split; done.
  - simpl seq. rewrite loop_cons.
    destruct (attempt start) as [r|e] eqn:Ea.
    + exists 1%nat. simpl. split; [lia|]. split; [lia|]. split; [done|].
      split; [split; [done|lia]|]. split; [done|].
      intros r' [= <-]. by replace (start + 1 - 1)%nat with start by lia.
    + destruct (start =? retries)%nat eqn:Es.
      * apply Nat.eqb_eq in Es. assert (len = 0%nat) as -> by lia.
        exists 1%nat. simpl. split; [lia|]. split; [lia|]. split; [done|].
        split; [split; [done|lia]|]. split; [|done].
        intros e' [= <-]. by subst start.
      * apply Nat.eqb_neq in Es.
        destruct (IH (S start)) as (k & Hk & Hk1 & Htrace & Hundef & Hthrow & Hret);
          [lia|].
        destruct (loop (seq (S start) len)) as [trace c]. simpl in *.
        assert (1 <= k)%nat by (apply Hk1; lia).
        exists (S k). split; [lia|]. split; [lia|]. split.
        { rewrite Htrace. destruct k as [|k]; [lia|done]. }
        split; [split; [intros ->%Hundef|]; lia|]. split.
        -- intros e' ->. destruct (Hthrow e' eq_refl) as [-> ?]. done.
        -- intros r ->. rewrite <- (Hret r eq_refl). f_equal. lia.
Qed.

End RetryShape.

(** X11. Whatever the remote endpoint answers, the retry loop of [RevA] (for
    a non-empty [data]) and of [RevB] sends some number [k] of requests, at
    most [retries] and at least one when [retries] is not 0; every request
    carries the same [data]; the waits are those of attempts 1 to [k - 1],
    [500 * k * (k - 1)] ms in all; an error is thrown only after [retries]
    requests and is the failure of the last attempt; a result is the one of
    attempt [k]; and the call returns [undefined], without error, exactly
    when [retries] is 0. *)
Theorem postToSubmitRoute_trace_shape
    (JSON_parse : list N -> option json) (net : nat -> reply)
    (record : ShipmentRecord) (others data : list ShipmentRecord) (retries : nat) :
  (exists k,
     (k <= retries)%nat /\ (1 <= retries -> 1 <= k)%nat
     /\ (RevA.postToSubmitRoute JSON_parse net (record :: others) retries).1
        = retryTrace (record :: others) 1 k
     /\ requests (RevA.postToSubmitRoute JSON_parse net (record :: others) retries).1 = k
     /\ totalWait (RevA.postToSubmitRoute JSON_parse net (record :: others) retries).1
        = (500 * k * (k - 1))%nat
     /\ (forall e,
           (RevA.postToSubmitRoute JSON_parse net (record :: others) retries).2 = Throws e ->
           k = retries /\ RevA.attemptOnce JSON_parse (net retries) = Throw e)
     /\ (forall r,
           (RevA.postToSubmitRoute JSON_parse net (record :: others) retries).2 = Returns r ->
           RevA.attemptOnce JSON_parse (net k) = Ok r))
  /\ ((RevA.postToSubmitRoute JSON_parse net (record :: others) retries).2
        = ReturnsUndefined <-> retries = 0%nat)
  /\ (exists k,
        (k <= retries)%nat /\ (1 <= retries -> 1 <= k)%nat
        /\ (RevB.postToSubmitRoute JSON_parse net data retries).1
           = retryTrace data 1 k
        /\ requests (RevB.postToSubmitRoute JSON_parse net data retries).1 = k
        /\ totalWait (RevB.postToSubmitRoute JSON_parse net data retries).1
           = (500 * k * (k - 1))%nat
        /\ (forall e,
              (RevB.postToSubmitRoute JSON_parse net data retries).2 = Throws e ->
              k = retries /\ RevB.attemptOnce JSON_parse (net retries) = Throw e)
        /\ (forall r,
              (RevB.postToSubmitRoute JSON_parse net data retries).2 = Returns r ->
              RevB.attemptOnce JSON_parse (net k) = Ok r))
  /\ ((RevB.postToSubmitRoute JSON_parse net data retries).2
        = ReturnsUndefined <-> retries = 0%nat)
  /\ (forall k e, e ∈ retryTrace data 1 k ->
        e = Fetch data
        \/ exists a, (1 <= a < k)%nat /\ e = Wait (a * 1000)).
Proof.
  assert (Hwait : forall d k, totalWait (retryTrace d 1 k) = (500 * k * (k - 1))%nat).
  { intros d k. pose proof (retryTrace_totalWait d k 1). nia. }
  destruct (loop_shape (fun a => RevA.attemptOnce JSON_parse (net a))
              (record :: others) retries
              (RevA.retryLoop JSON_parse net (record :: others) retries)
              eq_refl (retryLoopA_cons JSON_parse net (record :: others) retries)
              retries 1 eq_refl)
    as (kA & HA1 & HA2 & HA3 & HA4 & HA5 & HA6).
  destruct (loop_shape (fun a => RevB.attemptOnce JSON_parse (net a))
              data retries
              (RevB.retryLoop JSON_parse net data retries)
              eq_refl (retryLoopB_cons JSON_parse net data retries)
              retries 1 eq_refl)
    as (kB & HB1 & HB2 & HB3 & HB4 & HB5 & HB6).
  change (RevA.postToSubmitRoute JSON_parse net (record :: others) retries)
    with (RevA.retryLoop JSON_parse net (record :: others) retries (seq 1 retries)).
  change (RevB.postToSubmitRoute JSON_parse net data retries)
    with (RevB.retryLoop JSON_parse net data retries (seq 1 retries)).
  split; [|split; [done|split; [|split; [done|]]]].
  - exists kA. rewrite HA3, retryTrace_requests, Hwait.
    repeat (split; [done|]).
    intros r Hr. rewrite <- (HA6 r Hr). do 2 f_equal. lia.
  - exists kB. rewrite HB3, retryTrace_requests, Hwait.
    repeat (split; [done|]).
    intros r Hr. rewrite <- (HB6 r Hr). do 2 f_equal. lia.
  - intros k e He. destruct (retryTrace_events _ _ _ _ He) as [->|(a & ? & ? & ->)];
      [by left|]. right. exists a. split; [lia|done].
Qed.

(** In every revision one attempt gives a Submission Result exactly
    when the reply has a success status, its body can be read and parsed,
    and the result can be built from the parsed value; a reply with another
    status always fails with the status code and the body, whatever the body
    holds, and a request that gets no reply fails with its reason. *)
Lemma attemptOnce_result_iff
    (JSON_parse : list N -> option json) (rep : reply) (r : SubmissionResult) :
  (RevA.attemptOnce JSON_parse rep = Ok r <->
     exists code text jsonResponse,
       rep = Reply true code (Ok text) /\ JSON_parse text = Some jsonResponse
       /\ RevA.submissionResult jsonResponse = Ok r)
  /\ (RevB.attemptOnce JSON_parse rep = Ok r <->
     exists code text jsonResponse,
       rep = Reply true code (Ok text) /\ JSON_parse text = Some jsonResponse
       /\ RevB.submissionResult jsonResponse = Ok r)
  /\ (forall code text,
        RevA.attemptOnce JSON_parse (Reply false code (Ok text))
          = Throw (HttpError code text)
        /\ RevB.attemptOnce JSON_parse (Reply false code (Ok text))
          = Throw (HttpError code text))
  /\ (forall reason,
        RevA.attemptOnce JSON_parse (NoReply reason) = Throw (Rejected reason)
        /\ RevB.attemptOnce JSON_parse (NoReply reason) = Throw (Rejected reason)).
Proof.
  split; [|split; [|done]].
  - split.
    + destruct rep as [reason|ok code [text|e]]; simpl; try done.
      destruct ok; simpl; [|done].
      destruct (JSON_parse text) as [jsonResponse|] eqn:E; [|done].
      intros Hr. by exists code, text, jsonResponse.
    + intros (code & text & jsonResponse & -> & Hparse & Hr). simpl.
      by rewrite Hparse.
  - split.
    + destruct rep as [reason|ok code [text|e]]; simpl; try done;
        destruct ok; simpl; try done.
      destruct (JSON_parse text) as [jsonResponse|] eqn:E; [|done].
      intros Hr. by exists code, text, jsonResponse.
    + intros (code & text & jsonResponse & -> & Hparse & Hr). simpl.
      by rewrite Hparse.
Qed.

Lemma or_json_truthy a d : truthy d = true -> truthy (or_json a d) = true.
Proof. intros Hd. destruct a as [v|]; simpl; [|done]. by destruct (truthy v) eqn:E. Qed.

Lemma getProp_throws v k e : getProp v k = Throw e -> e = TypeError.
Proof. destruct v; simpl; try done. by intros [= <-]. Qed.

Lemma simplifyOneA_truthy element o :
  RevA.simplifyOne element = Ok o ->
  truthy (item_status o) = true /\ truthy (item_message o) = true.
Proof.
  unfold RevA.simplifyOne, mbind, result_bind.
  destruct (getProp element (js "postResponse")) as [postResponse|]; [|done].
  destruct (getProp element (js "error")) as [error|]; [|done].
  assert (Hplain :
    match getProp (default (JObj []) postResponse) (js "status") with
    | Ok status =>
        match getProp (default (JObj []) postResponse) (js "message") with
        | Ok message =>
            Ok {| item_status := or_json status (JStr (js "unknown"));
                  item_message := or_json message (JStr (js "No message provided")) |}
        | Throw e => Throw e
        end
    | Throw e => Throw e
    end = Ok o ->
    truthy (item_status o) = true /\ truthy (item_message o) = true).
  { destruct (getProp _ (js "status")); [|done].
    destruct (getProp _ (js "message")); [|done].
    intros [= <-]. simpl. split; by apply or_json_truthy. }
  destruct error as [e|]; [|done].
  destruct (truthy e) eqn:He; [|done]. by intros [= <-].
Qed.

Lemma simplifyOneB_truthy element o :
  RevB.simplifyOne element = Ok o ->
  truthy (item_status o) = true /\ truthy (item_message o) = true.
Proof.
  unfold RevB.simplifyOne, mbind, result_bind.
  destruct (getProp element (js "postResponse")) as [postResponse|]; [|done].
  destruct (getProp _ (js "status")); [|done].
  destruct (getProp _ (js "message")); [|done].
  intros [= <-]. simpl. split; by apply or_json_truthy.
Qed.

Lemma simplifyOneA_throws element e : RevA.simplifyOne element = Throw e -> e = TypeError.
Proof.
  unfold RevA.simplifyOne, mbind, result_bind.
  destruct (getProp element (js "postResponse")) as [postResponse|] eqn:E1;
    [|by apply getProp_throws in E1 as ->; intros [= <-]].
  destruct (getProp element (js "error")) as [error|] eqn:E2;
    [|by apply getProp_throws in E2 as ->; intros [= <-]].
  assert (Hplain :
    match getProp (default (JObj []) postResponse) (js "status") with
    | Ok status =>
        match getProp (default (JObj []) postResponse) (js "message") with
        | Ok message =>
            Ok {| item_status := or_json status (JStr (js "unknown"));
                  item_message := or_json message (JStr (js "No message provided")) |}
        | Throw e => Throw e
        end
    | Throw e => Throw e
    end = Throw e -> e = TypeError).
  { destruct (getProp _ (js "status")) eqn:E3;
      [|by apply getProp_throws in E3 as ->; intros [= <-]].
    destruct (getProp _ (js "message")) eqn:E4;
      [done|by apply getProp_throws in E4 as ->; intros [= <-]]. }
  destruct error as [err|]; [|done].
  by destruct (truthy err).
Qed.

Lemma simplifyOneB_throws element e : RevB.simplifyOne element = Throw e -> e = TypeError.
Proof.
  unfold RevB.simplifyOne, mbind, result_bind.
  destruct (getProp element (js "postResponse")) as [postResponse|] eqn:E1;
    [|by apply getProp_throws in E1 as ->; intros [= <-]].
  destruct (getProp _ (js "status")) eqn:E3;
    [|by apply getProp_throws in E3 as ->; intros [= <-]].
  destruct (getProp _ (js "message")) eqn:E4;
    [done|by apply getProp_throws in E4 as ->; intros [= <-]].
Qed.

Lemma mapM_throws {A B} (f : A -> result B) (l : list A) e :
  (forall x e, f x = Throw e -> e = TypeError) ->
  mapM f l = Throw e -> e = TypeError.
Proof.
  intros Hf. induction l as [|x l IH]; simpl; [done|].
  unfold mbind, result_bind.
  destruct (f x) as [y|e'] eqn:Ex; [|intros [= <-]; eauto].
  destruct (mapM f l); [done|]. intros [= <-]. by apply IH.
Qed.

Lemma simplifyPostResponsesA_truthy v out :
  RevA.simplifyPostResponses v = Ok out ->
  Forall (fun o => truthy (item_status o) = true /\ truthy (item_message o) = true) out.
Proof.
  assert (Hnone : Forall (fun o => truthy (item_status o) = true
                                   /\ truthy (item_message o) = true) [noValidResponses]).
  { by repeat constructor. }
  destruct v as [| | | |[|element elements]|]; try (simpl; by intros [= <-]).
  unfold RevA.simplifyPostResponses. intros Hall%mapM_Forall2.
  induction Hall as [|e o es os He _ IH]; constructor; [|done].
  by apply (simplifyOneA_truthy e).
Qed.

Lemma simplifyPostResponsesB_truthy v out :
  RevB.simplifyPostResponses v = Ok out ->
  Forall (fun o => truthy (item_status o) = true /\ truthy (item_message o) = true) out.
Proof.
  destruct v as [| | | |elements|]; try done.
  unfold RevB.simplifyPostResponses. intros Hall%mapM_Forall2.
  induction Hall as [|e o es os He _ IH]; constructor; [|done].
  by apply (simplifyOneB_truthy e).
Qed.

(** X12. In every revision a Submission Result that is built has a truthy
    [status], [message] and [execution_time] (the defaults stand in for
    missing or falsy fields of the response) and every outcome in its
    [results] has a truthy [status] and [message]; and building it can only
    fail with a [TypeError] (lines 166-171, 194-221, 401-406, 426-430). *)
Theorem submissionResult_fields_truthy (jsonResponse : json) :
  (forall r, RevA.submissionResult jsonResponse = Ok r ->
     truthy (status r) = true /\ truthy (message r) = true
     /\ truthy (execution_time r) = true
     /\ Forall (fun o => truthy (item_status o) = true
                         /\ truthy (item_message o) = true) (results r))
  /\ (forall e, RevA.submissionResult jsonResponse = Throw e -> e = TypeError)
  /\ (forall r, RevB.submissionResult jsonResponse = Ok r ->
        truthy (status r) = true /\ truthy (message r) = true
        /\ truthy (execution_time r) = true
        /\ Forall (fun o => truthy (item_status o) = true
                            /\ truthy (item_message o) = true) (results r))
  /\ (forall e, RevB.submissionResult jsonResponse = Throw e -> e = TypeError).
Proof.
  unfold RevA.submissionResult, RevB.submissionResult, mbind, result_bind.
  destruct (getProp jsonResponse (js "status")) as [s|e1] eqn:E1;
    [|apply getProp_throws in E1 as ->; repeat split; try done; by intros e [= <-]].
  destruct (getProp jsonResponse (js "message")) as [m|e2] eqn:E2;
    [|apply getProp_throws in E2 as ->; repeat split; try done; by intros e [= <-]].
  destruct (getProp jsonResponse (js "execution_time")) as [t|e3] eqn:E3;
    [|apply getProp_throws in E3 as ->; repeat split; try done; by intros e [= <-]].
  destruct (getProp jsonResponse (js "results")) as [rs|e4] eqn:E4;
    [|apply getProp_throws in E4 as ->; repeat split; try done; by intros e [= <-]].
  split; [|split; [|split]].
  - destruct (RevA.simplifyPostResponses _) as [out|] eqn:Es; [|done].
    intros r [= <-]. simpl. repeat (split; [by apply or_json_truthy|]).
    by apply simplifyPostResponsesA_truthy in Es.
  - destruct (RevA.simplifyPostResponses _) as [out|e'] eqn:Es; [done|].
    intros e [= <-].
    destruct (or_json rs (JArr [])) as [| | | |[|element elements]|]; try done.
    unfold RevA.simplifyPostResponses in Es.
    apply mapM_throws in Es; [done|]. apply simplifyOneA_throws.
  - destruct (RevB.simplifyPostResponses _) as [out|] eqn:Es; [|done].
    intros r [= <-]. simpl. repeat (split; [by apply or_json_truthy|]).
    by apply simplifyPostResponsesB_truthy in Es.
  - destruct (RevB.simplifyPostResponses _) as [out|e'] eqn:Es; [done|].
    intros e [= <-].
    destruct (or_json rs (JArr [])) as [| | | |elements|];
      try (simpl in Es; by injection Es as <-).
    unfold RevB.simplifyPostResponses in Es.
    apply mapM_throws in Es; [done|]. apply simplifyOneB_throws.
Qed.

(** X13. In [RevB] and [RevC] (lines 401-406, 426-430) the outcomes of a
    Submission Result correspond one to one and in order to the elements of
    the response's [results] array, each simplified on its own; a response
    whose [results] is missing or falsy gives the empty list of outcomes; and
    a [results] that is truthy but no array makes building the result fail
    with a [TypeError]. *)
Theorem submissionResult_B_results (jsonResponse : json) (field : option json) :
  getProp jsonResponse (js "results") = Ok field ->
  (forall elements r,
     field = Some (JArr elements) ->
     RevB.submissionResult jsonResponse = Ok r ->
     Forall2 (fun element o => RevB.simplifyOne element = Ok o) elements (results r)
     /\ length (results r) = length elements)
  /\ (truthy_opt field = false ->
      exists r, RevB.submissionResult jsonResponse = Ok r /\ results r = [])
  /\ (forall v, field = Some v -> truthy v = true ->
        (forall elements, v <> JArr elements) ->
        RevB.submissionResult jsonResponse = Throw TypeError).
Proof.
  intros Hfield. unfold RevB.submissionResult, mbind, result_bind.
  assert (Hprops : forall k, exists x, getProp jsonResponse k = Ok x).
  { intros k. destruct jsonResponse; simpl in *; try done; eauto. }
  destruct (Hprops (js "status")) as [s ->].
  destruct (Hprops (js "message")) as [m ->].
  destruct (Hprops (js "execution_time")) as [t ->].
  rewrite Hfield. split; [|split].
  - intros elements r ->.
    change (or_json (Some (JArr elements)) (JArr [])) with (JArr elements).
    unfold RevB.simplifyPostResponses.
    destruct (mapM RevB.simplifyOne elements) as [out|] eqn:Es; [|done].
    intros [= <-]. simpl. apply mapM_Forall2 in Es.
    split; [done|]. symmetry. by eapply Forall2_length.
  - intros Hfalsy.
    assert (or_json field (JArr []) = JArr []) as ->.
    { destruct field as [v|]; simpl in *; [by rewrite Hfalsy|done]. }
    simpl. eauto.
  - intros v -> Hv Harr. simpl. rewrite Hv.
    destruct v; try done. by destruct (Harr items).
Qed.

Lemma submissionResult_B_results_witness :
  exists r, RevB.submissionResult (JObj []) = Ok r /\ results r = [].
Proof.
  exact (proj1 (proj2 (submissionResult_B_results (JObj []) None eq_refl)) eq_refl).
Defined.

(** ** The error envelope and the route handlers *)

Lemma retryLoopA_shape JSON_parse net data retries :
  exists k,
    (k <= retries)%nat /\ (1 <= retries -> 1 <= k)%nat
    /\ (RevA.retryLoop JSON_parse net data retries (seq 1 retries)).1
       = retryTrace data 1 k
    /\ ((RevA.retryLoop JSON_parse net data retries (seq 1 retries)).2
          = ReturnsUndefined <-> retries = 0%nat).
Proof.
  destruct (loop_shape (fun a => RevA.attemptOnce JSON_parse (net a)) data retries
              (RevA.retryLoop JSON_parse net data retries)
              eq_refl (retryLoopA_cons JSON_parse net data retries)
              retries 1 eq_refl) as (k & ? & ? & ? & ? & _).
  by exists k.
Qed.

Lemma retryLoopB_shape JSON_parse net data retries :
  exists k,
    (k <= retries)%nat /\ (1 <= retries -> 1 <= k)%nat
    /\ (RevB.retryLoop JSON_parse net data retries (seq 1 retries)).1
       = retryTrace data 1 k
    /\ ((RevB.retryLoop JSON_parse net data retries (seq 1 retries)).2
          = ReturnsUndefined <-> retries = 0%nat).
Proof.
  destruct (loop_shape (fun a => RevB.attemptOnce JSON_parse (net a)) data retries
              (RevB.retryLoop JSON_parse net data retries)
              eq_refl (retryLoopB_cons JSON_parse net data retries)
              retries 1 eq_refl) as (k & ? & ? & ? & ? & _).
  by exists k.
Qed.

Lemma retryTrace_wait_bound data k :
  (k <= 3)%nat -> (totalWait (retryTrace data 1 k) <= 3000)%nat.
Proof.
  intros Hk. pose proof (retryTrace_totalWait data k 1). nia.
Qed.

Lemma handleError_answer JSON_parse error code resp :
  handleError JSON_parse error code = Ok resp ->
  exists p, resp = {| http_status := code; http_body := Failed code p |}.
Proof.
  unfold handleError, mbind, result_bind.
  destruct (JSON_parse _) as [parsedError|].
  - destruct (getProp parsedError (js "response")); [|done].
    destruct (getProp parsedError (js "stack")); [|done].
    intros [= <-]. eauto.
  - intros [= <-]. eauto.
Qed.

Lemma respond_trace JSON_parse describe outcome :
  (respond JSON_parse describe outcome).1 = outcome.1.
Proof. by destruct outcome as [trace [r| |e]]. Qed.


Lemma postToSubmitRoute_A_defined JSON_parse net data :
  (RevA.postToSubmitRoute JSON_parse net data 3).2 <> ReturnsUndefined.
Proof.
  unfold RevA.postToSubmitRoute. destruct data as [|record others]; [done|].
  destruct (retryLoopA_shape JSON_parse net (record :: others) 3)
    as (_ & _ & _ & _ & Hz).
  intros Hu%Hz. lia.
Qed.

Lemma postToSubmitRoute_B_defined JSON_parse net data :
  (RevB.postToSubmitRoute JSON_parse net data 3).2 <> ReturnsUndefined.
Proof.
  unfold RevB.postToSubmitRoute.
  destruct (retryLoopB_shape JSON_parse net data 3) as (_ & _ & _ & _ & Hz).
  intros Hu%Hz. lia.
Qed.

Lemma postToSubmitRoute_C_defined JSON_parse net data :
  (RevC.postToSubmitRoute JSON_parse net data).2 <> ReturnsUndefined.
Proof. unfold RevC.postToSubmitRoute. by destruct (RevB.attemptOnce _ _). Qed.

Lemma respond_cases JSON_parse describe outcome trace resp :
  outcome.2 <> ReturnsUndefined ->
  respond JSON_parse describe outcome = (trace, Ok resp) ->
  (exists r, outcome = (trace, Returns r)
             /\ resp = {| http_status := 200; http_body := Submitted (Some r) |})
  \/ (exists e p, outcome = (trace, Throws e)
                  /\ handleError JSON_parse (describe e) 500 = Ok resp
                  /\ resp = {| http_status := 500; http_body := Failed 500 p |}).
Proof.
  destruct outcome as [trace' [r| |e]]; simpl; [| done |].
  - intros _ [= <- <-]. left. eauto.
  - intros _ [= <- Hh]. right.
    destruct (handleError_answer _ _ _ _ Hh) as [p ->]. eauto.
Qed.

(** X15. In every revision the route handler answers 400 with the message
    that no file is attached, and sends nothing, when the request has no
    file. With a file: when the parser rejects, the handler sends nothing
    and answers what [handleError] makes of the parser's error with status
    500; when the client returns a Submission Result for the records of the
    parsed rows, it answers 200 with that very result, after the requests
    the client made; when the client throws, it answers what [handleError]
    makes of the thrown error with status 500; and the client never returns
    [undefined] to a handler. So an answer is either 200 with the result
    the client returned for this upload, or 500 with the error envelope
    of the parser's error or of the error the client threw. *)
Theorem route_answers
    (JSON_parse : list N -> option json) (net : nat -> reply)
    (describe : exn -> errorObject)
    (unreadable : list N -> option errorObject) :
  (routeA JSON_parse net describe unreadable None
     = ([], Ok {| http_status := 400; http_body := NoFileAttached |})
   /\ routeB JSON_parse net describe unreadable None
     = ([], Ok {| http_status := 400; http_body := NoFileAttached |})
   /\ routeC JSON_parse net describe unreadable None
     = ([], Ok {| http_status := 400; http_body := NoFileAttached |}))
  /\ (forall buffer error,
        parseCSVFromBuffer unreadable buffer = Rejects error ->
        routeA JSON_parse net describe unreadable (Some buffer)
          = ([], handleError JSON_parse error 500)
        /\ routeB JSON_parse net describe unreadable (Some buffer)
          = ([], handleError JSON_parse error 500)
        /\ routeC JSON_parse net describe unreadable (Some buffer)
          = ([], handleError JSON_parse error 500))
  /\ (forall buffer results trace r,
        parseCSVFromBuffer unreadable buffer = Resolves results ->
        (RevA.postToSubmitRoute JSON_parse net
           (RevA.formatCannonHillData results) 3 = (trace, Returns r) ->
         routeA JSON_parse net describe unreadable (Some buffer)
         = (trace, Ok {| http_status := 200; http_body := Submitted (Some r) |}))
        /\ (RevB.postToSubmitRoute JSON_parse net
              (RevB.formatCannonHillData results) 3 = (trace, Returns r) ->
            routeB JSON_parse net describe unreadable (Some buffer)
            = (trace, Ok {| http_status := 200; http_body := Submitted (Some r) |}))
        /\ (RevC.postToSubmitRoute JSON_parse net
              (RevC.formatCannonHillData results) = (trace, Returns r) ->
            routeC JSON_parse net describe unreadable (Some buffer)
            = (trace, Ok {| http_status := 200; http_body := Submitted (Some r) |})))
  /\ (forall buffer results trace e,
        parseCSVFromBuffer unreadable buffer = Resolves results ->
        (RevA.postToSubmitRoute JSON_parse net
           (RevA.formatCannonHillData results) 3 = (trace, Throws e) ->
         routeA JSON_parse net describe unreadable (Some buffer)
         = (trace, handleError JSON_parse (describe e) 500))
        /\ (RevB.postToSubmitRoute JSON_parse net
              (RevB.formatCannonHillData results) 3 = (trace, Throws e) ->
            routeB JSON_parse net describe unreadable (Some buffer)
            = (trace, handleError JSON_parse (describe e) 500))
        /\ (RevC.postToSubmitRoute JSON_parse net
              (RevC.formatCannonHillData results) = (trace, Throws e) ->
            routeC JSON_parse net describe unreadable (Some buffer)
            = (trace, handleError JSON_parse (describe e) 500)))
  /\ (forall data,
        (RevA.postToSubmitRoute JSON_parse net data 3).2 <> ReturnsUndefined
        /\ (RevB.postToSubmitRoute JSON_parse net data 3).2 <> ReturnsUndefined
        /\ (RevC.postToSubmitRoute JSON_parse net data).2 <> ReturnsUndefined)
  /\ (forall buffer trace resp,
        routeA JSON_parse net describe unreadable (Some buffer) = (trace, Ok resp) ->
        (exists results r,
           parseCSVFromBuffer unreadable buffer = Resolves results
           /\ RevA.postToSubmitRoute JSON_parse net
                (RevA.formatCannonHillData results) 3 = (trace, Returns r)
           /\ resp = {| http_status := 200; http_body := Submitted (Some r) |})
        \/ (exists p, resp = {| http_status := 500; http_body := Failed 500 p |}))
  /\ (forall buffer trace resp,
        routeB JSON_parse net describe unreadable (Some buffer) = (trace, Ok resp) ->
        (exists results r,
           parseCSVFromBuffer unreadable buffer = Resolves results
           /\ RevB.postToSubmitRoute JSON_parse net
                (RevB.formatCannonHillData results) 3 = (trace, Returns r)
           /\ resp = {| http_status := 200; http_body := Submitted (Some r) |})
        \/ (exists p, resp = {| http_status := 500; http_body := Failed 500 p |}))
  /\ (forall buffer trace resp,
        routeC JSON_parse net describe unreadable (Some buffer) = (trace, Ok resp) ->
        (exists results r,
           parseCSVFromBuffer unreadable buffer = Resolves results
           /\ RevC.postToSubmitRoute JSON_parse net
                (RevC.formatCannonHillData results) = (trace, Returns r)
           /\ resp = {| http_status := 200; http_body := Submitted (Some r) |})
        \/ (exists p, resp = {| http_status := 500; http_body := Failed 500 p |})).
Proof.
  split; [done|]. split.
  { intros buffer error Hparse. unfold routeA, routeB, routeC.
    by rewrite Hparse. }
  split.
  { intros buffer results trace r Hparse. unfold routeA, routeB, routeC.
    rewrite Hparse. split; [|split]; by intros ->. }
  split.
  { intros buffer results trace e Hparse. unfold routeA, routeB, routeC.
    rewrite Hparse. split; [|split]; by intros ->. }
  split.
  { intros data. split; [apply postToSubmitRoute_A_defined|].
    split; [apply postToSubmitRoute_B_defined|apply postToSubmitRoute_C_defined]. }
  split; [|split].
  - intros buffer trace resp. unfold routeA.
    destruct (parseCSVFromBuffer unreadable buffer) as [results|error].
    + intros [(r & Hpost & ->)|(e & p & _ & _ & ->)]%respond_cases;
        [left; by exists results, r|right; by exists p
        |apply postToSubmitRoute_A_defined].
    + intros [= <- [p ->]%handleError_answer]. right. by exists p.
  - intros buffer trace resp. unfold routeB.
    destruct (parseCSVFromBuffer unreadable buffer) as [results|error].
    + intros [(r & Hpost & ->)|(e & p & _ & _ & ->)]%respond_cases;
        [left; by exists results, r|right; by exists p
        |apply postToSubmitRoute_B_defined].
    + intros [= <- [p ->]%handleError_answer]. right. by exists p.
  - intros buffer trace resp. unfold routeC.
    destruct (parseCSVFromBuffer unreadable buffer) as [results|error].
    + intros [(r & Hpost & ->)|(e & p & _ & _ & ->)]%respond_cases;
        [left; by exists results, r|right; by exists p
        |apply postToSubmitRoute_C_defined].
    + intros [= <- [p ->]%handleError_answer]. right. by exists p.
Qed.

(** X16. With a file attached: when the parser rejects, no handler sends a
    request. When it resolves: the handler of [RevA] sends nothing when no
    row of the upload yields an order number, and then answers with the
    failure of the input guard, the text ["No valid data to send to submit
    route"] when that message is not JSON; otherwise it sends one to three
    requests. The handler of [RevB] then sends one to three requests and the
    handler of [RevC] exactly one, whatever rows the upload holds. No handler
    waits more than 3000 ms in all. *)
Theorem route_requests
    (JSON_parse : list N -> option json) (net : nat -> reply)
    (describe : exn -> errorObject)
    (unreadable : list N -> option errorObject) (buffer : jsstring) :
  (forall error,
     parseCSVFromBuffer unreadable buffer = Rejects error ->
     (routeA JSON_parse net describe unreadable (Some buffer)).1 = []
     /\ (routeB JSON_parse net describe unreadable (Some buffer)).1 = []
     /\ (routeC JSON_parse net describe unreadable (Some buffer)).1 = [])
  /\ (forall results,
        parseCSVFromBuffer unreadable buffer = Resolves results ->
        (RevA.formatCannonHillData results = [] ->
           routeA JSON_parse net describe unreadable (Some buffer)
           = ([], handleError JSON_parse
                    (describe (Error (js "No valid data to send to submit route")))
                    500))
        /\ (RevA.formatCannonHillData results = [] ->
            error_message
              (describe (Error (js "No valid data to send to submit route")))
              = js "No valid data to send to submit route" ->
            JSON_parse (js "No valid data to send to submit route") = None ->
            routeA JSON_parse net describe unreadable (Some buffer)
            = ([], Ok {| http_status := 500;
                         http_body :=
                           Failed 500
                             (PText (js "No valid data to send to submit route")) |}))
        /\ (RevA.formatCannonHillData results <> [] ->
            (1 <= requests
                    (routeA JSON_parse net describe unreadable (Some buffer)).1
               <= 3)%nat)
        /\ (1 <= requests
                   (routeB JSON_parse net describe unreadable (Some buffer)).1
              <= 3)%nat
        /\ requests (routeC JSON_parse net describe unreadable (Some buffer)).1
           = 1%nat)
  /\ (totalWait (routeA JSON_parse net describe unreadable (Some buffer)).1
        <= 3000)%nat
  /\ (totalWait (routeB JSON_parse net describe unreadable (Some buffer)).1
        <= 3000)%nat
  /\ totalWait (routeC JSON_parse net describe unreadable (Some buffer)).1 = 0%nat.
Proof.
  assert (HA : forall data, data <> [] ->
    (1 <= requests (RevA.postToSubmitRoute JSON_parse net data 3).1 <= 3)%nat).
  { intros [|record others] Hne; [done|]. unfold RevA.postToSubmitRoute.
    destruct (retryLoopA_shape JSON_parse net (record :: others) 3)
      as (k & ? & ? & -> & _).
    rewrite retryTrace_requests. lia. }
  assert (HAw : forall data,
    (totalWait (RevA.postToSubmitRoute JSON_parse net data 3).1 <= 3000)%nat).
  { intros [|record others]; [simpl; unfold totalWait; simpl; lia|].
    unfold RevA.postToSubmitRoute.
    destruct (retryLoopA_shape JSON_parse net (record :: others) 3)
      as (k & ? & ? & -> & _).
    by apply retryTrace_wait_bound. }
  assert (HB : forall data,
    (1 <= requests (RevB.postToSubmitRoute JSON_parse net data 3).1 <= 3)%nat
    /\ (totalWait (RevB.postToSubmitRoute JSON_parse net data 3).1 <= 3000)%nat).
  { intros data. unfold RevB.postToSubmitRoute.
    destruct (retryLoopB_shape JSON_parse net data 3) as (k & ? & ? & -> & _).
    rewrite retryTrace_requests. split; [lia|by apply retryTrace_wait_bound]. }
  assert (HC : forall data,
    requests (RevC.postToSubmitRoute JSON_parse net data).1 = 1%nat
    /\ totalWait (RevC.postToSubmitRoute JSON_parse net data).1 = 0%nat).
  { intros data. unfold RevC.postToSubmitRoute.
    by destruct (RevB.attemptOnce _ _). }
  unfold routeA, routeB, routeC.
  split; [by intros error ->|]. split.
  { intros results ->. rewrite !respond_trace.
    split; [by intros ->|]. split.
    { intros -> Hm Hparse.
      change (RevA.postToSubmitRoute JSON_parse net [] 3)
        with (@nil event, Throws (Error (js "No valid data to send to submit route"))).
      unfold respond, handleError. rewrite Hm.
      change (truthy_str (js "No valid data to send to submit route")) with true.
      cbv iota. by rewrite Hparse. }
    split; [apply HA|]. split; [apply HB|apply HC]. }
  destruct (parseCSVFromBuffer unreadable buffer) as [results|error].
  - rewrite !respond_trace. split; [apply HAw|]. split; [apply HB|apply HC].
  - simpl. unfold totalWait. simpl. lia.
Qed.


Lemma route_requests_witness :
  routeA (fun _ => None) alwaysDown plainDescribe (fun _ => None)
    (Some (js "no rows"))
  = ([], Ok {| http_status := 500;
               http_body :=
                 Failed 500 (PText (js "No valid data to send to submit route")) |}).
Proof.
  apply (proj1 (proj2 (proj1 (proj2
           (route_requests (fun _ => None) alwaysDown plainDescribe
              (fun _ => None) (js "no rows"))) [] eq_refl))); reflexivity.
Defined.

Example routeB_posts_nothing_to_send :
  routeB (fun _ => None) alwaysDown plainDescribe (fun _ => None)
    (Some (js "no rows"))
  = ([Fetch []; Wait 1000; Fetch []; Wait 2000; Fetch []],
     Ok {| http_status := 500;
           http_body :=
             Failed 500 (PText (js "failed")) |}).
Proof. reflexivity. Qed.

Example route_rejected_parse :
  routeC (fun _ => None) alwaysDown plainDescribe
    (fun _ => Some (plainDescribe (Error (js "Invalid CSV")))) (Some (js "x"))
  = ([], Ok {| http_status := 500;
               http_body := Failed 500 (PText (js "Invalid CSV")) |}).
Proof. reflexivity. Qed.
